(** * The durable event outbox and cloud synchronisation engine

    A shallow embedding of [src/backend/cloudSync.js]: the three tables
    of the SQLite database [sync.db], the statements the manager runs on
    them, and the methods of [CloudSyncManager].

    Conventions of the model.
    - A table is the list of its rows in rowid order.  The statements of
      the storage engine are total functions on the tables: the [err]
      argument of the sqlite callbacks (an I/O failure of the engine) is
      not modelled, so the [reject(err)] branches, and the [catch] block
      of [performSync] that only they can reach, are left out.
    - What the program reads from its environment is an explicit
      argument: the readings of [Date.now()], the value of
      [CURRENT_TIMESTAMP], the draw of [Math.random()] and the outcome of
      [axios.post].
    - JavaScript numbers are the integers ([Z]); floating point values
      play no role in the engine.
    - The text of the [data] column is represented by the JSON document
      it denotes, so that [JSON.parse] of a stored text is total. *)

From Stdlib Require Import ZArith Bool List String Ascii DecimalString.
From Stdlib Require Import Lia Sorted Permutation.
Import ListNotations.

Local Open Scope string_scope.
Local Open Scope Z_scope.

(** ** JavaScript values and JSON *)

#[local] Set Warnings "-register-all".

Module JS.

Inductive value : Type :=
| Undefined
| Null
| Bool (b : bool)
| Number (n : Z)
| BigInt (n : Z)
| Str (s : string)
| Array (elems : list value)
| Object (props : list (string * value)).

(** A JSON document, as [JSON.stringify] writes it. *)
Inductive json : Type :=
| JNull
| JBool (b : bool)
| JNumber (n : Z)
| JString (s : string)
| JArray (elems : list json)
| JObject (members : list (string * json)).

(** ToBoolean, as used by [||], [?:] and [if]. *)
Definition truthy (v : value) : bool :=
  match v with
  | Undefined | Null => false
  | Bool b => b
  | Number n | BigInt n => negb (n =? 0)
  | Str s => negb (s =? "")%string
  | Array _ | Object _ => true
  end.

(** [a || b] *)
Definition or_else (a b : value) : value := if truthy a then a else b.

Fixpoint assoc {A : Type} (k : string) (l : list (string * A)) : option A :=
  match l with
  | [] => None
  | (k', v) :: l' => if (k =? k')%string then Some v else assoc k l'
  end.

(** [o.k]: a TypeError on [undefined] and [null] ([None]), the own
    property otherwise.  None of the keys the engine reads ([userId],
    [type], [timestamp], [success], [error]) is a built-in property of a
    primitive or of an array. *)
Definition get (o : value) (k : string) : option value :=
  match o with
  | Undefined | Null => None
  | Object props =>
      Some match assoc k props with Some v => v | None => Undefined end
  | _ => Some Undefined
  end.

(** Property assignment, keeping the position of an existing key. *)
Fixpoint set_prop (k : string) (v : value) (props : list (string * value))
  : list (string * value) :=
  match props with
  | [] => [(k, v)]
  | (k', v') :: rest =>
      if (k =? k')%string then (k, v) :: rest
      else (k', v') :: set_prop k v rest
  end.

(** [{ ...a, ...b }] on property lists. *)
Definition spread (a b : list (string * value)) : list (string * value) :=
  fold_left (fun acc kv => set_prop (fst kv) (snd kv) acc) b a.

(** What [JSON.stringify] does with a value. *)
Inductive stringified : Type :=
| Throws                (* TypeError: a BigInt cannot be serialised *)
| NoText                (* the result is [undefined] *)
| Text (doc : json).

(** Serialisation of a value in element position: [undefined] becomes
    [null] inside an array and is dropped from an object. *)
Fixpoint serialize (v : value) : option (option json) :=
  match v with
  | Undefined => Some None
  | Null => Some (Some JNull)
  | Bool b => Some (Some (JBool b))
  | Number n => Some (Some (JNumber n))
  | BigInt _ => None
  | Str s => Some (Some (JString s))
  | Array elems =>
      let fix go (l : list value) : option (list json) :=
        match l with
        | [] => Some []
        | x :: l' =>
            match serialize x, go l' with
            | Some (Some j), Some js => Some (j :: js)
            | Some None, Some js => Some (JNull :: js)
            | _, _ => None
            end
        end in
      match go elems with
      | Some js => Some (Some (JArray js))
      | None => None
      end
  | Object props =>
      let fix go (l : list (string * value)) : option (list (string * json)) :=
        match l with
        | [] => Some []
        | (k, x) :: l' =>
            match serialize x, go l' with
            | Some (Some j), Some js => Some ((k, j) :: js)
            | Some None, Some js => Some js
            | _, _ => None
            end
        end in
      match go props with
      | Some ms => Some (Some (JObject ms))
      | None => None
      end
  end.

Definition JSON_stringify (v : value) : stringified :=
  match serialize v with
  | None => Throws
  | Some None => NoText
  | Some (Some j) => Text j
  end.

Fixpoint JSON_parse (j : json) : value :=
  match j with
  | JNull => Null
  | JBool b => Bool b
  | JNumber n => Number n
  | JString s => Str s
  | JArray elems => Array (map JSON_parse elems)
  | JObject members =>
      Object (map (fun kj => (fst kj, JSON_parse (snd kj))) members)
  end.

(** Decimal rendering of an integer inside a template literal. *)
Definition show (n : Z) : string := NilZero.string_of_int (Z.to_int n).

End JS.

(** ** Configuration *)

Record config : Type := {
  baseUrl : string;
  apiKey : string;
  syncInterval : Z;
  batchSize : Z;
  retryAttempts : Z;
  timeout : Z
}.

(** The defaults, used when the environment variables [ZYLON_CLOUD_URL]
    and [ZYLON_API_KEY] are not set. *)
Definition CLOUD_CONFIG : config := {|
  baseUrl := "https://api.zylonlabs.com";
  apiKey := "demo_api_key";
  syncInterval := 2000;
  batchSize := 100;
  retryAttempts := 3;
  timeout := 5000
|}.

(** ** The database [sync.db] *)

Module Db.

Inductive status : Type := pending | synced | failed.

Definition status_eqb (a b : status) : bool :=
  match a, b with
  | pending, pending | synced, synced | failed, failed => true
  | _, _ => false
  end.

(** A row of [sync_queue].  [created_at] is the value of
    [CURRENT_TIMESTAMP] at the insert, in seconds: the text
    [YYYY-MM-DD HH:MM:SS] compares as the instant it denotes.
    [user_id] and [event_type] are TEXT columns: they hold what [text]
    keeps of the value bound to the statement, as the string that a
    [SELECT] gives back. *)
Record queue_row : Type := {
  id : Z;
  user_id : JS.value;
  event_type : JS.value;
  data : option JS.json;
  timestamp : Z;
  sync_status : status;
  retry_count : Z;
  created_at : Z
}.

Record log_row : Type := {
  log_id : Z;
  batch_id : string;
  records_synced : Z;
  success : Z;
  error_message : JS.value;
  sync_duration : Z;
  log_timestamp : Z
}.

Record activity_row : Type := {
  activity_id : Z;
  activity_user_id : JS.value;
  activity_type : JS.value;
  details : option JS.json;
  activity_timestamp : JS.value;
  synced_flag : Z;
  activity_created_at : Z
}.

(** The three tables, each with the counter of its AUTOINCREMENT key. *)
Record database : Type := {
  sync_queue : list queue_row;
  sync_queue_seq : Z;
  sync_logs : list log_row;
  sync_logs_seq : Z;
  user_activity : list activity_row;
  user_activity_seq : Z
}.

(** The state after the three [CREATE TABLE IF NOT EXISTS] on a new file. *)
Definition empty : database := {|
  sync_queue := []; sync_queue_seq := 0;
  sync_logs := []; sync_logs_seq := 0;
  user_activity := []; user_activity_seq := 0
|}.

Definition with_queue (q : list queue_row) (d : database) : database := {|
  sync_queue := q; sync_queue_seq := sync_queue_seq d;
  sync_logs := sync_logs d; sync_logs_seq := sync_logs_seq d;
  user_activity := user_activity d; user_activity_seq := user_activity_seq d
|}.

Definition set_status (s : status) (r : queue_row) : queue_row := {|
  id := id r; user_id := user_id r; event_type := event_type r;
  data := data r; timestamp := timestamp r;
  sync_status := s; retry_count := retry_count r; created_at := created_at r
|}.

Definition bump_retry (r : queue_row) : queue_row := {|
  id := id r; user_id := user_id r; event_type := event_type r;
  data := data r; timestamp := timestamp r;
  sync_status := sync_status r; retry_count := retry_count r + 1;
  created_at := created_at r
|}.

(** What a column of type TEXT keeps of a bound value: a string as it
    is, a number by its decimal text, a boolean as 1 or 0, an array or an
    object by the text [[object Object]]; NULL stays NULL.  (A BigInt
    does not get here: [JSON.stringify] has thrown before the statement
    is run.) *)
Definition text (v : JS.value) : JS.value :=
  match v with
  | JS.Str s => JS.Str s
  | JS.Number n | JS.BigInt n => JS.Str (JS.show n)
  | JS.Bool b => JS.Str (if b then "1" else "0")
  | JS.Array _ | JS.Object _ => JS.Str "[object Object]"
  | JS.Undefined | JS.Null => JS.Null
  end.

(** [INSERT INTO sync_queue (user_id, event_type, data, timestamp)
     VALUES (?, ?, ?, ?)]; the result is [this.lastID]. *)
Definition insert_sync_queue (uid ty : JS.value) (doc : option JS.json)
    (ts : Z) (current_timestamp : Z) (d : database) : Z * database :=
  let new_id := sync_queue_seq d + 1 in
  let row := {|
    id := new_id; user_id := text uid; event_type := text ty; data := doc;
    timestamp := ts; sync_status := pending; retry_count := 0;
    created_at := current_timestamp |} in
  (new_id, {|
    sync_queue := sync_queue d ++ [row]; sync_queue_seq := new_id;
    sync_logs := sync_logs d; sync_logs_seq := sync_logs_seq d;
    user_activity := user_activity d;
    user_activity_seq := user_activity_seq d |}).

(** [ORDER BY created_at ASC]: a stable insertion sort, rows of equal
    [created_at] staying in rowid order. *)
Fixpoint insert_by_created_at (r : queue_row) (l : list queue_row)
  : list queue_row :=
  match l with
  | [] => [r]
  | x :: l' =>
      if created_at r <=? created_at x then r :: l
      else x :: insert_by_created_at r l'
  end.

Definition order_by_created_at (l : list queue_row) : list queue_row :=
  fold_right insert_by_created_at [] l.

(** [LIMIT n]: a negative [n] puts no bound on the number of rows. *)
Definition limit {A : Type} (n : Z) (l : list A) : list A :=
  if n <? 0 then l else firstn (Z.to_nat n) l.

(** [WHERE sync_status = 'pending' AND retry_count < ?] *)
Definition selectable (max_retry : Z) (r : queue_row) : bool :=
  status_eqb (sync_status r) pending && (retry_count r <? max_retry).

(** [SELECT * FROM sync_queue WHERE sync_status = 'pending' AND
     retry_count < ? ORDER BY created_at ASC LIMIT ?] *)
Definition select_pending (max_retry n : Z) (d : database) : list queue_row :=
  limit n (order_by_created_at (filter (selectable max_retry) (sync_queue d))).

(** [WHERE id IN (?, ..., ?)] *)
Definition id_in (ids : list Z) (r : queue_row) : bool :=
  existsb (Z.eqb (id r)) ids.

(** [UPDATE sync_queue SET sync_status = 'synced' WHERE id IN (...)] *)
Definition update_synced (ids : list Z) (d : database) : database :=
  with_queue
    (map (fun r => if id_in ids r then set_status synced r else r)
         (sync_queue d)) d.

(** [UPDATE sync_queue SET retry_count = retry_count + 1,
     sync_status = 'failed' WHERE id IN (...)] *)
Definition update_failed (ids : list Z) (d : database) : database :=
  with_queue
    (map (fun r => if id_in ids r then set_status failed (bump_retry r) else r)
         (sync_queue d)) d.

(** [INSERT INTO sync_logs (batch_id, records_synced, success,
     error_message, sync_duration) VALUES (?, ?, ?, ?, ?)] *)
Definition insert_sync_log (batch : string) (count ok : Z) (msg : JS.value)
    (duration : Z) (current_timestamp : Z) (d : database) : database :=
  let new_id := sync_logs_seq d + 1 in
  {| sync_queue := sync_queue d; sync_queue_seq := sync_queue_seq d;
     sync_logs := sync_logs d ++ [{|
       log_id := new_id; batch_id := batch; records_synced := count;
       success := ok; error_message := msg; sync_duration := duration;
       log_timestamp := current_timestamp |}];
     sync_logs_seq := new_id;
     user_activity := user_activity d;
     user_activity_seq := user_activity_seq d |}.

(** [INSERT INTO user_activity (user_id, activity_type, details,
     timestamp) VALUES (?, ?, ?, ?)] *)
Definition insert_user_activity (uid ty : JS.value) (doc : option JS.json)
    (ts : JS.value) (current_timestamp : Z) (d : database) : database :=
  let new_id := user_activity_seq d + 1 in
  {| sync_queue := sync_queue d; sync_queue_seq := sync_queue_seq d;
     sync_logs := sync_logs d; sync_logs_seq := sync_logs_seq d;
     user_activity := user_activity d ++ [{|
       activity_id := new_id; activity_user_id := text uid;
       activity_type := text ty;
       details := doc; activity_timestamp := ts; synced_flag := 0;
       activity_created_at := current_timestamp |}];
     user_activity_seq := new_id |}.

End Db.

(** ** The environment of the manager *)

(** How a request of [axios.post] can fail: with an HTTP error response
    ([error.response], with its status and [data?.message]), without any
    response ([error.request]), or before the request was made. *)
Inductive failure : Type :=
| ErrorResponse (status : Z) (message : option string)
| NoResponse
| OtherError (message : string).

Inductive reply : Type :=
| Resolved (response_data : list (string * JS.value))
| Rejected (error : failure).

(** What one synchronous segment of the program reads from outside. *)
Record env : Type := {
  now : Z;                    (* Date.now() *)
  current_timestamp : Z;      (* CURRENT_TIMESTAMP of the statement run *)
  random_below_005 : bool;    (* Math.random() < 0.05 *)
  axios_post : reply          (* how the pending request settles *)
}.

(** The readings of one uninterrupted run of [performSync], one per
    segment between two [await]s. *)
Record schedule : Type := {
  at_call : env;
  at_selected : env;
  at_replied : env;
  at_updated : env;
  at_logged : env
}.

(** ** CloudSyncManager *)

Record sync_record : Type := {
  rec_id : Z;
  rec_userId : JS.value;
  rec_eventType : JS.value;
  rec_data : JS.value;
  rec_timestamp : Z
}.

(** The envelope handed to [sendToCloud]. *)
Record sync_batch : Type := {
  batchId : string;
  batch_timestamp : Z;
  records : list sync_record
}.

(** The fields of the manager, the database it writes, the callbacks of
    [setTimeout] not yet run (by due time) and the envelopes given to
    [sendToCloud] so far, oldest first. *)
Record state : Type := {
  isOnline : bool;
  syncInProgress : bool;
  lastSyncTime : Z;
  syncDb : Db.database;
  timers : list Z;
  sent : list sync_batch
}.

(** [new CloudSyncManager()] over a given database file. *)
Definition constructor (d : Db.database) : state := {|
  isOnline := true; syncInProgress := false; lastSyncTime := 0;
  syncDb := d; timers := []; sent := []
|}.

Definition set_isOnline (b : bool) (s : state) : state := {|
  isOnline := b; syncInProgress := syncInProgress s;
  lastSyncTime := lastSyncTime s; syncDb := syncDb s;
  timers := timers s; sent := sent s |}.

Definition set_syncInProgress (b : bool) (s : state) : state := {|
  isOnline := isOnline s; syncInProgress := b;
  lastSyncTime := lastSyncTime s; syncDb := syncDb s;
  timers := timers s; sent := sent s |}.

Definition set_lastSyncTime (t : Z) (s : state) : state := {|
  isOnline := isOnline s; syncInProgress := syncInProgress s;
  lastSyncTime := t; syncDb := syncDb s;
  timers := timers s; sent := sent s |}.

Definition set_syncDb (d : Db.database) (s : state) : state := {|
  isOnline := isOnline s; syncInProgress := syncInProgress s;
  lastSyncTime := lastSyncTime s; syncDb := d;
  timers := timers s; sent := sent s |}.

(** [setTimeout(callback, delay)] at time [t]. *)
Definition setTimeout (t delay : Z) (s : state) : state := {|
  isOnline := isOnline s; syncInProgress := syncInProgress s;
  lastSyncTime := lastSyncTime s; syncDb := syncDb s;
  timers := timers s ++ [t + delay]; sent := sent s |}.

Definition record_sent (b : sync_batch) (s : state) : state := {|
  isOnline := isOnline s; syncInProgress := syncInProgress s;
  lastSyncTime := lastSyncTime s; syncDb := syncDb s;
  timers := timers s; sent := sent s ++ [b] |}.

(** A result object, by its properties. *)
Definition result : Type := list (string * JS.value).

Definition field (k : string) (r : result) : JS.value :=
  match JS.assoc k r with Some v => v | None => JS.Undefined end.

Definition message_of (f : failure) : string :=
  match f with
  | ErrorResponse status message =>
      "HTTP " ++ JS.show status ++ ": " ++
      match message with
      | Some m => if (m =? "")%string then "Unknown error" else m
      | None => "Unknown error"
      end
  | NoResponse => "Network error - offline mode activated"
  | OtherError message => message
  end.

Section Manager.

Variable cfg : config.

(** [addToSyncQueue(data)]: the promise is rejected ([inl], with the
    message of the error) when the executor throws, before [syncDb.run]
    is reached; it is resolved with [this.lastID] otherwise. *)
Definition addToSyncQueue (e : env) (data : JS.value) (s : state)
  : (string + Z) * state :=
  match JS.JSON_stringify data with
  | JS.Throws => (inl "Do not know how to serialize a BigInt", s)
  | eventData =>
      match JS.get data "userId", JS.get data "type" with
      | Some userId, Some type =>
          let '(lastID, d) :=
            Db.insert_sync_queue
              (JS.or_else userId (JS.Str "system"))
              (JS.or_else type (JS.Str "activity"))
              match eventData with JS.Text doc => Some doc | _ => None end
              (now e) (current_timestamp e) (syncDb s) in
          (inr lastID, set_syncDb d s)
      | _, _ => (inl "Cannot read properties of undefined", s)
      end
  end.

Definition getPendingRecords (lim : Z) (s : state) : list Db.queue_row :=
  Db.select_pending (retryAttempts cfg) lim (syncDb s).

Definition markRecordsSynced (recordIds : list Z) (s : state) : state :=
  set_syncDb (Db.update_synced recordIds (syncDb s)) s.

Definition handleSyncFailure (recs : list Db.queue_row) (error : JS.value)
    (s : state) : state :=
  let recordIds := map Db.id recs in
  set_syncDb (Db.update_failed recordIds (syncDb s)) s.

Definition logSync (batch : string) (recordsCount : Z) (ok : bool)
    (errorMessage : JS.value) (duration : Z) (e : env) (s : state) : state :=
  set_syncDb
    (Db.insert_sync_log batch recordsCount (if ok then 1 else 0)
       errorMessage duration (current_timestamp e) (syncDb s)) s.

(** The [try] block of [sendToCloud]: its value, or the error thrown. *)
Definition post (e : env) (b : sync_batch) : result + failure :=
  if (apiKey cfg =? "demo_api_key")%string then
    if random_below_005 e then inr (OtherError "Simulated cloud sync failure")
    else inl [("success", JS.Bool true);
              ("batchId", JS.Str (batchId b));
              ("recordsProcessed", JS.Number (Z.of_nat (List.length (records b))))]
  else
    match axios_post e with
    | Resolved response_data =>
        inl (JS.spread [("success", JS.Bool true)] response_data)
    | Rejected error => inr error
    end.

(** [sendToCloud] once the request has settled. *)
Definition sendToCloud_settle (e : env) (b : sync_batch) (s : state)
  : result * state :=
  match post e b with
  | inl r => (r, s)
  | inr error =>
      let s := set_isOnline false s in
      let s := setTimeout (now e) 30000 s in
      ([("success", JS.Bool false); ("error", JS.Str (message_of error))], s)
  end.

Definition sendToCloud (e : env) (b : sync_batch) (s : state)
  : result * state :=
  sendToCloud_settle e b (record_sent b s).

Definition to_record (r : Db.queue_row) : sync_record := {|
  rec_id := Db.id r;
  rec_userId := Db.user_id r;
  rec_eventType := Db.event_type r;
  rec_data := match Db.data r with
              | Some doc => JS.JSON_parse doc
              | None => JS.Null
              end;
  rec_timestamp := Db.timestamp r
|}.

Definition already_in_progress : result :=
  [("success", JS.Bool true); ("message", JS.Str "Sync already in progress")].

Definition no_data : result :=
  [("success", JS.Bool true); ("message", JS.Str "No data to sync")].

(** [performSync()], run without interruption. *)
Definition performSync (sch : schedule) (s : state) : result * state :=
  if syncInProgress s then (already_in_progress, s)
  else
    let s := set_syncInProgress true s in
    let batch := "batch_" ++ JS.show (now (at_call sch)) in
    let startTime := now (at_call sch) in
    let pendingRecords := getPendingRecords (batchSize cfg) s in
    if (List.length pendingRecords =? 0)%nat then
      (no_data, set_syncInProgress false s)
    else
      let syncData := {|
        batchId := batch;
        batch_timestamp := now (at_selected sch);
        records := map to_record pendingRecords |} in
      let '(res, s) := sendToCloud (at_replied sch) syncData s in
      let s :=
        if JS.truthy (field "success" res) then
          let s := markRecordsSynced (map Db.id pendingRecords) s in
          logSync batch (Z.of_nat (List.length pendingRecords)) true JS.Null
            (now (at_updated sch) - startTime) (at_logged sch) s
        else
          let s := handleSyncFailure pendingRecords (field "error" res) s in
          logSync batch 0 false (field "error" res)
            (now (at_updated sch) - startTime) (at_logged sch) s in
      let s := set_lastSyncTime (now (at_logged sch)) s in
      (res, set_syncInProgress false s).

(** [syncData(data)], run without interruption: nothing else runs
    while it awaits the INSERT of [addToSyncQueue], so the guard reads
    the flags as the enqueue left them.  The interleaved runs take it in
    two steps, [Queued] and [Kick] below. *)
Definition syncData (e : env) (sch : schedule) (data : JS.value) (s : state)
  : result * state :=
  match addToSyncQueue e data s with
  | (inl msg, s) =>
      ([("success", JS.Bool false); ("error", JS.Str msg)], s)
  | (inr _, s) =>
      let s :=
        if isOnline s && negb (syncInProgress s)
        then snd (performSync sch s) else s in
      ([("success", JS.Bool true); ("queued", JS.Bool true)], s)
  end.

(** [logEvent(eventData)], run without interruption; the interleaved
    runs take its two INSERTs as the steps [Activity] and [Queued]. *)
Definition logEvent (e_activity e_queue : env) (eventData : JS.value)
    (s : state) : result * state :=
  let failed msg := [("success", JS.Bool false); ("error", JS.Str msg)] in
  match JS.get eventData "userId", JS.get eventData "type",
        JS.get eventData "timestamp" with
  | Some userId, Some type, Some ts =>
      match JS.JSON_stringify eventData with
      | JS.Throws => (failed "Do not know how to serialize a BigInt", s)
      | text =>
          let d :=
            Db.insert_user_activity
              (JS.or_else userId (JS.Str "system"))
              (JS.or_else type (JS.Str "activity"))
              match text with JS.Text doc => Some doc | _ => None end
              (JS.or_else ts (JS.Number (now e_activity)))
              (current_timestamp e_activity) (syncDb s) in
          match addToSyncQueue e_queue eventData (set_syncDb d s) with
          | (inl msg, s) => (failed msg, s)
          | (inr _, s) => ([("success", JS.Bool true)], s)
          end
      end
  | _, _, _ => (failed "Cannot read properties of undefined", s)
  end.

(** [performScheduledSync()], with the call of [performSync] run
    without interruption; [Tick] below is its synchronous part. *)
Definition performScheduledSync (sch : schedule) (s : state) : state :=
  if negb (isOnline s) then s
  else
    let timeSinceLastSync := now (at_call sch) - lastSyncTime s in
    if timeSinceLastSync >=? syncInterval cfg
    then snd (performSync sch s) else s.

End Manager.

(** ** Interleaved runs

    [performSync] gives control back at each [await]; other calls, the
    enqueuer and the timer callbacks run in between.  An invocation is
    followed through the stages below; the effect of a statement of the
    database takes place when its callback resumes the invocation. *)

Inductive stage : Type :=
| Selecting (batch : string) (startTime : Z)
| Sending (batch : string) (startTime : Z)
    (pendingRecords : list Db.queue_row) (syncData : sync_batch)
| MarkingSynced (batch : string) (startTime : Z)
    (pendingRecords : list Db.queue_row) (res : result)
| HandlingFailure (batch : string) (startTime : Z)
    (pendingRecords : list Db.queue_row) (res : result)
| Logging (batch : string) (recordsCount : Z) (ok : bool)
    (errorMessage : JS.value) (duration : Z) (res : result)
| Returned (res : result).

Definition dispatching (st : stage) : bool :=
  match st with Returned _ => false | _ => true end.

Section Steps.

Variable cfg : config.

(** The call of [performSync], up to its first [await]. *)
Definition call (e : env) (s : state) : stage * state :=
  if syncInProgress s then (Returned already_in_progress, s)
  else (Selecting ("batch_" ++ JS.show (now e)) (now e),
        set_syncInProgress true s).

(** One segment of an invocation, from the [await] it is suspended at to
    the next one, or to its return through the [finally] block. *)
Definition resume (e : env) (st : stage) (s : state) : stage * state :=
  match st with
  | Selecting batch startTime =>
      let pendingRecords := getPendingRecords cfg (batchSize cfg) s in
      if (List.length pendingRecords =? 0)%nat then
        (Returned no_data, set_syncInProgress false s)
      else
        let syncData := {|
          batchId := batch;
          batch_timestamp := now e;
          records := map to_record pendingRecords |} in
        (Sending batch startTime pendingRecords syncData,
         record_sent syncData s)
  | Sending batch startTime pendingRecords syncData =>
      let '(res, s) := sendToCloud_settle cfg e syncData s in
      if JS.truthy (field "success" res)
      then (MarkingSynced batch startTime pendingRecords res, s)
      else (HandlingFailure batch startTime pendingRecords res, s)
  | MarkingSynced batch startTime pendingRecords res =>
      (Logging batch (Z.of_nat (List.length pendingRecords)) true JS.Null
         (now e - startTime) res,
       markRecordsSynced (map Db.id pendingRecords) s)
  | HandlingFailure batch startTime pendingRecords res =>
      (Logging batch 0 false (field "error" res) (now e - startTime) res,
       handleSyncFailure pendingRecords (field "error" res) s)
  | Logging batch recordsCount ok errorMessage duration res =>
      let s := logSync batch recordsCount ok errorMessage duration e s in
      let s := set_lastSyncTime (now e) s in
      (Returned res, set_syncInProgress false s)
  | Returned res => (Returned res, s)
  end.

(** The process: the shared state and every invocation of [performSync]
    made so far. *)
Record system : Type := {
  shared : state;
  tasks : list stage
}.

Inductive event : Type :=
| Call (e : env)                       (* performSync() is called *)
| Resume (i : nat) (e : env)           (* invocation [i] is resumed *)
| Enqueue (e : env) (data : JS.value)  (* addToSyncQueue(data) *)
| Timeout.                             (* a callback of setTimeout runs *)

Fixpoint replace {A : Type} (i : nat) (x : A) (l : list A) : list A :=
  match l, i with
  | [], _ => []
  | _ :: l', O => x :: l'
  | y :: l', S i' => y :: replace i' x l'
  end.

Definition fire (ev : event) (sys : system) : system :=
  match ev with
  | Call e =>
      let '(st, s) := call e (shared sys) in
      {| shared := s; tasks := tasks sys ++ [st] |}
  | Resume i e =>
      match nth_error (tasks sys) i with
      | Some st =>
          let '(st', s) := resume e st (shared sys) in
          {| shared := s; tasks := replace i st' (tasks sys) |}
      | None => sys
      end
  | Enqueue e data =>
      {| shared := snd (addToSyncQueue e data (shared sys));
         tasks := tasks sys |}
  | Timeout =>
      match timers (shared sys) with
      | [] => sys
      | _ :: rest =>
          let s := shared sys in
          {| shared := {|
               isOnline := true; syncInProgress := syncInProgress s;
               lastSyncTime := lastSyncTime s; syncDb := syncDb s;
               timers := rest; sent := sent s |};
             tasks := tasks sys |}
      end
  end.

Definition run (evs : list event) (sys : system) : system :=
  fold_left (fun sys ev => fire ev sys) evs sys.

(** The process after start-up on the database [d]. *)
Definition boot (d : Db.database) : system :=
  {| shared := constructor d; tasks := [] |}.

(** The invocations between their guard and their return. *)
Definition in_flight (sys : system) : nat :=
  List.length (filter dispatching (tasks sys)).

End Steps.

(** ** The process through its exported operations

    The steps the program takes when it is driven through what the
    module exports: [performSync] is called at two places only, after
    the guard of [performScheduledSync] and after the guard of
    [syncData], each read in the same synchronous segment as the call;
    the guard of [syncData] is read when the [await] of
    [addToSyncQueue] has resumed it, so other steps may come between its
    enqueue and its guard. *)

Inductive step : Type :=
| Tick (e : env)                          (* performScheduledSync() *)
| Activity (e : env) (eventData : JS.value)
                                           (* logEvent: the first INSERT *)
| Queued (e : env) (data : JS.value)      (* the INSERT of addToSyncQueue *)
| Kick (e : env)                          (* syncData after its await *)
| Resumed (i : nat) (e : env)             (* invocation [i] is resumed *)
| Fired.                                  (* a callback of setTimeout *)

Section Process.

Variable cfg : config.

(** The first [INSERT] of [logEvent]; nothing is written when an
    argument of the statement throws. *)
Definition logActivity (e : env) (eventData : JS.value) (s : state) : state :=
  match JS.get eventData "userId", JS.get eventData "type",
        JS.get eventData "timestamp" with
  | Some userId, Some type, Some ts =>
      match JS.JSON_stringify eventData with
      | JS.Throws => s
      | text =>
          set_syncDb
            (Db.insert_user_activity
               (JS.or_else userId (JS.Str "system"))
               (JS.or_else type (JS.Str "activity"))
               match text with JS.Text doc => Some doc | _ => None end
               (JS.or_else ts (JS.Number (now e)))
               (current_timestamp e) (syncDb s)) s
      end
  | _, _, _ => s
  end.

Definition perform (st : step) (sys : system) : system :=
  match st with
  | Tick e =>
      if negb (isOnline (shared sys)) then sys
      else if now e - lastSyncTime (shared sys) >=? syncInterval cfg
           then fire cfg (Call e) sys else sys
  | Activity e eventData =>
      {| shared := logActivity e eventData (shared sys);
         tasks := tasks sys |}
  | Queued e data => fire cfg (Enqueue e data) sys
  | Kick e =>
      if isOnline (shared sys) && negb (syncInProgress (shared sys))
      then fire cfg (Call e) sys else sys
  | Resumed i e => fire cfg (Resume i e) sys
  | Fired => fire cfg Timeout sys
  end.

Definition execute (sts : list step) (sys : system) : system :=
  fold_left (fun sys st => perform st sys) sts sys.

(** The resumptions of invocation [i] up to its return. *)
Definition resumptions (i : nat) (sch : schedule) : list step :=
  [Resumed i (at_selected sch); Resumed i (at_replied sch);
   Resumed i (at_updated sch); Resumed i (at_logged sch)].

End Process.

(** The stages of an invocation that has sent nothing yet or has seen
    its batch accepted. *)
Definition expects_online (st : stage) : bool :=
  match st with
  | Selecting _ _ | Sending _ _ _ _ | MarkingSynced _ _ _ _ => true
  | Logging _ _ ok _ _ _ => ok
  | HandlingFailure _ _ _ _ | Returned _ => false
  end.

(** No invocation is at such a stage while the manager is offline. *)
Definition attentive (sys : system) : Prop :=
  forall st, In st (tasks sys) -> expects_online st = true ->
             isOnline (shared sys) = true.

(** ** Notions used in the statements *)

Definition by_created_at (a b : Db.queue_row) : Prop :=
  Db.created_at a <= Db.created_at b.

(** Rows in the order a clock that never goes back gives them: later
    rowids carry larger ids and no earlier [created_at]. *)
Definition in_clock_order (a b : Db.queue_row) : Prop :=
  Db.id a < Db.id b /\ Db.created_at a <= Db.created_at b.

Definition queue (s : state) : list Db.queue_row := Db.sync_queue (syncDb s).

(** The rows the selection draws from. *)
Definition eligible (cfg : config) (s : state) : list Db.queue_row :=
  filter (Db.selectable (retryAttempts cfg)) (queue s).

(** The envelope [performSync] builds when it is called in state [s]. *)
Definition envelope (cfg : config) (sch : schedule) (s : state) : sync_batch := {|
  batchId := "batch_" ++ JS.show (now (at_call sch));
  batch_timestamp := now (at_selected sch);
  records := map to_record (getPendingRecords cfg (batchSize cfg) s)
|}.

(** The transport outcome is successful: [result.success] is truthy. *)
Definition accepted (cfg : config) (e : env) (b : sync_batch) : bool :=
  match post cfg e b with
  | inl r => JS.truthy (field "success" r)
  | inr _ => false
  end.

(** What [handleSyncFailure] does to one row. *)
Definition mark_failed (r : Db.queue_row) : Db.queue_row :=
  Db.set_status Db.failed (Db.bump_retry r).

(** What a row keeps from its insert. *)
Definition origin (r : Db.queue_row)
  : Z * JS.value * JS.value * option JS.json * Z * Z :=
  (Db.id r, Db.user_id r, Db.event_type r, Db.data r, Db.timestamp r,
   Db.created_at r).

Definition sizes (bs : list sync_batch) : list nat :=
  map (fun b => List.length (records b)) bs.

(** Mutual exclusion: the flag is set exactly while one invocation is
    between its guard and its return, and there is never a second one. *)
Definition exclusive (sys : system) : Prop :=
  in_flight sys = if syncInProgress (shared sys) then 1%nat else 0%nat.

(** The events of one invocation of [performSync] that nothing
    interrupts, when it is the invocation number [i]. *)
Definition uninterrupted (i : nat) (sch : schedule) : list event :=
  [Call (at_call sch); Resume i (at_selected sch); Resume i (at_replied sch);
   Resume i (at_updated sch); Resume i (at_logged sch)].

(** ** Sample runs *)

(** The readings at second [t] of a process whose transport delivers. *)
Definition at_time (t : Z) : env := {|
  now := t * 1000; current_timestamp := t;
  random_below_005 := false; axios_post := Resolved []
|}.

(** The same readings when the transport fails without a response. *)
Definition failing (e : env) : env := {|
  now := now e; current_timestamp := current_timestamp e;
  random_below_005 := true; axios_post := Rejected NoResponse
|}.

(** The same readings when the endpoint answers 400. *)
Definition refused (e : env) : env := {|
  now := now e; current_timestamp := current_timestamp e;
  random_below_005 := false;
  axios_post := Rejected (ErrorResponse 400 (Some "Malformed payload"))
|}.

Definition throughout (e : env) : schedule := {|
  at_call := e; at_selected := e; at_replied := e;
  at_updated := e; at_logged := e
|}.

(** The configuration of a deployment that has an API key. *)
Definition live : config := {|
  baseUrl := "https://api.zylonlabs.com"; apiKey := "zk_live";
  syncInterval := 2000; batchSize := 100; retryAttempts := 3;
  timeout := 5000
|}.

(** The defaults with batches of two. *)
Definition pairs : config := {|
  baseUrl := "https://api.zylonlabs.com"; apiKey := "demo_api_key";
  syncInterval := 2000; batchSize := 2; retryAttempts := 3;
  timeout := 5000
|}.

Definition launch : JS.value :=
  JS.Object [("type", JS.Str "app_launch"); ("userId", JS.Str "u1");
             ("appId", JS.Str "calc")].




Definition empty_kind : JS.value :=
  JS.Object [("userId", JS.Str "u1"); ("type", JS.Str "")].

Definition unserializable : JS.value :=
  JS.Object [("type", JS.Str "metric"); ("value", JS.BigInt 7)].

Definition enqueued (t : Z) (s : state) : state :=
  snd (addToSyncQueue (at_time t) launch s).

(** One event enqueued on a new database. *)
Definition one_pending : state := enqueued 10 (constructor Db.empty).

(** ... and its dispatch failed once. *)
Definition failed_once : state :=
  snd (performSync CLOUD_CONFIG (throughout (failing (at_time 11))) one_pending).

(** Two events, the clock having been set back between them. *)
Definition clock_set_back : state :=
  enqueued 5 (enqueued 10 (constructor Db.empty)).

(** Five events enqueued one second apart. *)
Definition five_pending : state :=
  enqueued 5 (enqueued 4 (enqueued 3 (enqueued 2
    (enqueued 1 (constructor Db.empty))))).

(** A row that has used up its attempts. *)
Definition exhausted_row : Db.queue_row := {|
  Db.id := 1; Db.user_id := JS.Str "u1"; Db.event_type := JS.Str "app_launch";
  Db.data := None; Db.timestamp := 10000; Db.sync_status := Db.failed;
  Db.retry_count := 3; Db.created_at := 10
|}.

Definition exhausted : state :=
  constructor (Db.with_queue [exhausted_row] Db.empty).

(** ** The read-only methods *)

(** The row [getSyncStats] resolves with. *)
Record sync_stats : Type := {
  total_events : Z;
  synced_events : Z;
  pending_events : Z;
  failed_events : Z
}.

(** [COUNT(CASE WHEN sync_status = ? THEN 1 END)] *)
Definition count_status (st : Db.status) (q : list Db.queue_row) : Z :=
  Z.of_nat
    (List.length (filter (fun r => Db.status_eqb (Db.sync_status r) st) q)).

Definition getSyncStats (s : state) : sync_stats := {|
  total_events := Z.of_nat (List.length (Db.sync_queue (syncDb s)));
  synced_events := count_status Db.synced (Db.sync_queue (syncDb s));
  pending_events := count_status Db.pending (Db.sync_queue (syncDb s));
  failed_events := count_status Db.failed (Db.sync_queue (syncDb s))
|}.

Record status_report : Type := {
  report_isOnline : bool;
  report_syncInProgress : bool;
  report_lastSyncTime : Z;
  report_syncInterval : Z
}.

Definition getStatus (cfg : config) (s : state) : status_report := {|
  report_isOnline := isOnline s;
  report_syncInProgress := syncInProgress s;
  report_lastSyncTime := lastSyncTime s;
  report_syncInterval := syncInterval cfg
|}.

(** ** Notions used in the further properties *)

(** Calls of [performSync] one after the other, none interrupted. *)
Definition dispatches (cfg : config) (schs : list schedule) (s : state)
  : state :=
  fold_left (fun s sch => snd (performSync cfg sch s)) schs s.

(** The rows an invocation has selected and not yet marked. *)
Definition holds (st : stage) : list Db.queue_row :=
  match st with
  | Sending _ _ pendingRecords _
  | MarkingSynced _ _ pendingRecords _
  | HandlingFailure _ _ pendingRecords _ => pendingRecords
  | _ => []
  end.

Definition hand (l : list stage) : list Z :=
  List.concat (map (fun st => map Db.id (holds st)) l).

Definition in_hand (sys : system) : list Z := hand (tasks sys).

(** The ids of all the records handed to the transport so far. *)
Definition sent_ids (s : state) : list Z :=
  List.concat (map (fun b => map rec_id (records b)) (sent s)).

(** Keys as AUTOINCREMENT gives them: growing with the rowid and never
    above the counter of the table. *)
Definition well_formed (d : Db.database) : Prop :=
  StronglySorted Z.lt (map Db.id (Db.sync_queue d)) /\
  Forall (fun i => i <= Db.sync_queue_seq d) (map Db.id (Db.sync_queue d)).

(** What holds of the process between any two events. *)
Definition consistent (sys : system) : Prop :=
  well_formed (syncDb (shared sys)) /\
  exclusive sys /\
  (forall r, In r (queue (shared sys)) ->
             In (Db.id r) (in_hand sys) -> Db.sync_status r = Db.pending) /\
  NoDup (sent_ids (shared sys)) /\
  incl (sent_ids (shared sys)) (map Db.id (queue (shared sys))) /\
  (forall r, In r (queue (shared sys)) ->
             In (Db.id r) (sent_ids (shared sys)) ->
             Db.sync_status r <> Db.pending \/ In (Db.id r) (in_hand sys)).

(** The three shapes of a row this program has written. *)
Definition shaped (r : Db.queue_row) : Prop :=
  (Db.sync_status r = Db.pending /\ Db.retry_count r = 0) \/
  (Db.sync_status r = Db.synced /\ Db.retry_count r = 0) \/
  (Db.sync_status r = Db.failed /\ Db.retry_count r = 1).

(** A later state of a row. *)
Definition evolves (r r' : Db.queue_row) : Prop :=
  origin r' = origin r /\ Db.retry_count r <= Db.retry_count r'.

(** A later state of the queue: the same rows in the same order, each
    one evolved, and new rows after them. *)
Definition grows (q q' : list Db.queue_row) : Prop :=
  exists kept added, q' = (kept ++ added)%list /\ Forall2 evolves q kept.


(** * Properties *)

Local Open Scope list_scope.

(** ** The statements of the database *)

Module DbFacts.
Import Db.

Lemma In_firstn {A : Type} (k : nat) (l : list A) (x : A) :
  In x (firstn k l) -> In x l.
Proof.
  intros H. rewrite <- (firstn_skipn k l). apply in_or_app. now left.
Qed.

Lemma limit_In {A : Type} (n : Z) (l : list A) (x : A) :
  In x (limit n l) -> In x l.
Proof.
  unfold limit. destruct (n <? 0); [trivial | apply In_firstn].
Qed.

Lemma limit_length {A : Type} (n : Z) (l : list A) :
  0 <= n ->
  List.length (limit n l) = Nat.min (Z.to_nat n) (List.length l).
Proof.
  intros Hn. unfold limit.
  destruct (n <? 0) eqn:E; [apply Z.ltb_lt in E; lia | apply length_firstn].
Qed.

(** [limit] cuts a prefix. *)
Lemma limit_prefix {A : Type} (n : Z) (l : list A) :
  exists rest, l = limit n l ++ rest.
Proof.
  unfold limit. destruct (n <? 0).
  - exists []. now rewrite app_nil_r.
  - exists (skipn (Z.to_nat n) l). now rewrite firstn_skipn.
Qed.

Lemma insert_by_created_at_perm (r : queue_row) (l : list queue_row) :
  Permutation (insert_by_created_at r l) (r :: l).
Proof.
  induction l as [|x l IH]; simpl.
  - apply Permutation_refl.
  - destruct (created_at r <=? created_at x).
    + apply Permutation_refl.
    + eapply perm_trans; [apply perm_skip, IH | apply perm_swap].
Qed.

Lemma order_by_created_at_perm (l : list queue_row) :
  Permutation (order_by_created_at l) l.
Proof.
  induction l as [|r l IH]; simpl.
  - constructor.
  - eapply perm_trans; [apply insert_by_created_at_perm | now constructor].
Qed.

Lemma insert_by_created_at_sorted (r : queue_row) (l : list queue_row) :
  StronglySorted by_created_at l ->
  StronglySorted by_created_at (insert_by_created_at r l).
Proof.
  induction 1 as [|x l Hs IH Hx]; simpl.
  - repeat constructor.
  - destruct (created_at r <=? created_at x) eqn:E.
    + apply Z.leb_le in E. constructor; [now constructor|].
      constructor; [exact E|].
      eapply Forall_impl; [|exact Hx].
      unfold by_created_at. intros y Hy. lia.
    + apply Z.leb_gt in E. constructor; [exact IH|].
      apply (Permutation_Forall
               (Permutation_sym (insert_by_created_at_perm r l))).
      constructor; [unfold by_created_at; lia | exact Hx].
Qed.

Lemma order_by_created_at_sorted (l : list queue_row) :
  StronglySorted by_created_at (order_by_created_at l).
Proof.
  induction l; simpl; [constructor | now apply insert_by_created_at_sorted].
Qed.

(** Sorting is the identity on rows that are in order already. *)
Lemma order_by_created_at_fixed (l : list queue_row) :
  StronglySorted by_created_at l -> order_by_created_at l = l.
Proof.
  induction 1 as [|x l Hs IH Hx]; simpl; [reflexivity|].
  rewrite IH. destruct l as [|y l]; [reflexivity|]. simpl.
  inversion Hx as [|? ? Hy _]; subst.
  unfold by_created_at in Hy. apply Z.leb_le in Hy. now rewrite Hy.
Qed.

Lemma StronglySorted_impl {A : Type} (R S : A -> A -> Prop) (l : list A) :
  (forall a b, R a b -> S a b) -> StronglySorted R l -> StronglySorted S l.
Proof.
  intros HRS. induction 1 as [|x l Hs IH Hx]; constructor; [assumption|].
  eapply Forall_impl; [|exact Hx]. intros; now apply HRS.
Qed.

Lemma StronglySorted_filter {A : Type} (R : A -> A -> Prop) (f : A -> bool)
    (l : list A) :
  StronglySorted R l -> StronglySorted R (filter f l).
Proof.
  induction 1 as [|x l Hs IH Hx]; simpl; [constructor|].
  destruct (f x); [|assumption]. constructor; [assumption|].
  apply Forall_forall. intros y Hy. apply filter_In in Hy.
  rewrite Forall_forall in Hx. now apply Hx.
Qed.

Lemma StronglySorted_prefix {A : Type} (R : A -> A -> Prop) (l l' : list A) :
  StronglySorted R (l ++ l') -> StronglySorted R l.
Proof.
  induction l as [|x l IH]; simpl; intros H; [constructor|].
  inversion H as [|? ? Hs Hx]; subst. constructor; [now apply IH|].
  apply Forall_app in Hx. tauto.
Qed.

Lemma StronglySorted_limit {A : Type} (R : A -> A -> Prop) (n : Z)
    (l : list A) :
  StronglySorted R l -> StronglySorted R (limit n l).
Proof.
  intros H. destruct (limit_prefix n l) as [rest E].
  rewrite E in H. now apply StronglySorted_prefix in H.
Qed.

Lemma StronglySorted_map {A B : Type} (R : A -> A -> Prop)
    (S : B -> B -> Prop) (f : A -> B) (l : list A) :
  (forall a b, R a b -> S (f a) (f b)) ->
  StronglySorted R l -> StronglySorted S (map f l).
Proof.
  intros HRS. induction 1 as [|x l Hs IH Hx]; simpl; constructor.
  - assumption.
  - apply Forall_map. eapply Forall_impl; [|exact Hx]. intros; now apply HRS.
Qed.

(** What a selected row satisfies. *)
Lemma select_pending_In (m n : Z) (d : database) (r : queue_row) :
  In r (select_pending m n d) ->
  In r (sync_queue d) /\ sync_status r = pending /\ retry_count r < m.
Proof.
  unfold select_pending. intros H. apply limit_In in H.
  apply (Permutation_in _ (order_by_created_at_perm _)) in H.
  apply filter_In in H. destruct H as [Hin Hsel].
  unfold selectable in Hsel. apply andb_true_iff in Hsel.
  destruct Hsel as [Hst Hrc]. apply Z.ltb_lt in Hrc.
  repeat split; trivial. now destruct (sync_status r).
Qed.

Lemma select_pending_length (m n : Z) (d : database) :
  0 <= n ->
  List.length (select_pending m n d) =
  Nat.min (Z.to_nat n) (List.length (filter (selectable m) (sync_queue d))).
Proof.
  intros Hn. unfold select_pending. rewrite limit_length by assumption.
  now rewrite (Permutation_length (order_by_created_at_perm _)).
Qed.

Lemma select_pending_sorted (m n : Z) (d : database) :
  StronglySorted by_created_at (select_pending m n d).
Proof.
  apply StronglySorted_limit, order_by_created_at_sorted.
Qed.

Lemma id_in_spec (ids : list Z) (r : queue_row) :
  id_in ids r = true <-> In (id r) ids.
Proof.
  unfold id_in. rewrite existsb_exists. split.
  - intros [x [Hin Heq]]. apply Z.eqb_eq in Heq. now rewrite Heq.
  - intros Hin. exists (id r). split; [assumption | apply Z.eqb_refl].
Qed.

Lemma update_synced_ids (ids : list Z) (d : database) :
  map id (sync_queue (update_synced ids d)) = map id (sync_queue d).
Proof.
  simpl. rewrite map_map. apply map_ext. intros r.
  now destruct (id_in ids r).
Qed.

Lemma update_failed_ids (ids : list Z) (d : database) :
  map id (sync_queue (update_failed ids d)) = map id (sync_queue d).
Proof.
  simpl. rewrite map_map. apply map_ext. intros r.
  now destruct (id_in ids r).
Qed.

Lemma filter_perm {A : Type} (f : A -> bool) (l l' : list A) :
  Permutation l l' -> Permutation (filter f l) (filter f l').
Proof.
  induction 1 as [|x l l' _ IH|x y l|l l' l'' _ IH1 _ IH2]; simpl.
  - constructor.
  - destruct (f x); [now constructor | assumption].
  - destruct (f x), (f y); try apply Permutation_refl. apply perm_swap.
  - eapply perm_trans; eassumption.
Qed.

Lemma filter_andb {A : Type} (f g : A -> bool) (l : list A) :
  filter (fun x => f x && g x) l = filter g (filter f l).
Proof.
  induction l as [|x l IH]; simpl; [reflexivity|].
  destruct (f x); simpl; [destruct (g x)|]; now rewrite IH.
Qed.

Lemma filter_none {A : Type} (f : A -> bool) (l : list A) :
  (forall x, In x l -> f x = false) -> filter f l = [].
Proof.
  induction l as [|x l IH]; simpl; intros H; [reflexivity|].
  rewrite (H x) by now left. apply IH. intros; apply H; now right.
Qed.

Lemma filter_all {A : Type} (f : A -> bool) (l : list A) :
  (forall x, In x l -> f x = true) -> filter f l = l.
Proof.
  induction l as [|x l IH]; simpl; intros H; [reflexivity|].
  rewrite (H x) by now left. f_equal. apply IH. intros; apply H; now right.
Qed.

Lemma NoDup_map_filter {A B : Type} (g : A -> B) (f : A -> bool) (l : list A) :
  NoDup (map g l) -> NoDup (map g (filter f l)).
Proof.
  induction l as [|x l IH]; simpl; intros H; [constructor|].
  inversion H as [|? ? Hx Hl]; subst.
  destruct (f x); [|now apply IH]. simpl. constructor; [|now apply IH].
  intros Hin. apply Hx. apply in_map_iff in Hin.
  destruct Hin as [y [Hy Hin]]. apply filter_In in Hin.
  apply in_map_iff. exists y. tauto.
Qed.

Lemma NoDup_app_apart {A : Type} (l1 l2 : list A) (a : A) :
  NoDup (l1 ++ l2) -> In a l2 -> ~ In a l1.
Proof.
  induction l1 as [|x l1 IH]; simpl; intros H Hin; [tauto|].
  inversion H as [|? ? Hx Hl]; subst. intros [Heq|Hin1].
  - subst. apply Hx, in_or_app. now right.
  - now apply (IH Hl Hin).
Qed.

(** A row is selectable after [update_synced] when it was before and the
    statement did not touch it. *)
Lemma selectable_after_synced (m : Z) (ids : list Z) (r : queue_row) :
  selectable m (if id_in ids r then set_status synced r else r) =
  selectable m r && negb (id_in ids r).
Proof.
  destruct (id_in ids r); simpl.
  - now rewrite andb_false_r.
  - now rewrite andb_true_r.
Qed.

(** Marking a selection as synced takes exactly its rows out of the
    backlog, when ids are unique. *)
Lemma update_synced_backlog (m n : Z) (d : database) :
  NoDup (map id (sync_queue d)) ->
  List.length
    (filter (selectable m)
       (sync_queue (update_synced (map id (select_pending m n d)) d))) =
  (List.length (filter (selectable m) (sync_queue d)) -
   List.length (select_pending m n d))%nat.
Proof.
  intros Hnd. set (sel := select_pending m n d). simpl.
  rewrite filter_map_swap, length_map.
  rewrite (filter_ext _ _ (selectable_after_synced m (map id sel))).
  rewrite filter_andb.
  set (E := filter (selectable m) (sync_queue d)).
  set (g := fun r => negb (id_in (map id sel) r)).
  assert (HndE : NoDup (map id E)) by now apply NoDup_map_filter.
  pose proof (order_by_created_at_perm E) as Hperm.
  destruct (limit_prefix n (order_by_created_at E)) as [rest Hsplit].
  fold E in sel. change (limit n (order_by_created_at E)) with sel in Hsplit.
  rewrite <- (Permutation_length (filter_perm g _ _ Hperm)).
  rewrite <- (Permutation_length Hperm).
  assert (HndS : NoDup (map id (sel ++ rest))).
  { rewrite <- Hsplit.
    eapply Permutation_NoDup; [|exact HndE].
    apply Permutation_map, Permutation_sym, Hperm. }
  rewrite Hsplit, filter_app, !length_app.
  rewrite (filter_none g sel), (filter_all g rest); simpl; [lia| |].
  - intros r Hr. unfold g. apply negb_true_iff.
    destruct (id_in (map id sel) r) eqn:Ein; [|reflexivity].
    apply id_in_spec in Ein. rewrite map_app in HndS.
    exfalso. apply (NoDup_app_apart _ _ (id r) HndS); [|exact Ein].
    now apply in_map.
  - intros r Hr. unfold g. apply negb_false_iff, id_in_spec. now apply in_map.
Qed.

End DbFacts.

(** ** The methods of the manager *)

Section ManagerFacts.

Variable cfg : config.

Lemma getPendingRecords_flag (b : bool) (lim : Z) (s : state) :
  getPendingRecords cfg lim (set_syncInProgress b s) =
  getPendingRecords cfg lim s.
Proof. reflexivity. Qed.

Lemma nonempty_length {A : Type} (l : list A) :
  l <> [] -> (List.length l =? 0)%nat = false.
Proof. destruct l; [congruence | reflexivity]. Qed.

(** The run of [performSync] that finds records to send, spelled out. *)
Lemma performSync_dispatch (sch : schedule) (s : state) :
  syncInProgress s = false ->
  getPendingRecords cfg (batchSize cfg) s <> [] ->
  performSync cfg sch s =
  let sel := getPendingRecords cfg (batchSize cfg) s in
  let b := envelope cfg sch s in
  let batch := batchId b in
  let duration := now (at_updated sch) - now (at_call sch) in
  match post cfg (at_replied sch) b with
  | inl res =>
      (res,
       {| isOnline := isOnline s; syncInProgress := false;
          lastSyncTime := now (at_logged sch);
          syncDb :=
            if JS.truthy (field "success" res) then
              Db.insert_sync_log batch (Z.of_nat (List.length sel)) 1 JS.Null
                duration (current_timestamp (at_logged sch))
                (Db.update_synced (map Db.id sel) (syncDb s))
            else
              Db.insert_sync_log batch 0 0 (field "error" res)
                duration (current_timestamp (at_logged sch))
                (Db.update_failed (map Db.id sel) (syncDb s));
          timers := timers s; sent := sent s ++ [b] |})
  | inr error =>
      ([("success", JS.Bool false); ("error", JS.Str (message_of error))],
       {| isOnline := false; syncInProgress := false;
          lastSyncTime := now (at_logged sch);
          syncDb :=
            Db.insert_sync_log batch 0 0 (JS.Str (message_of error))
              duration (current_timestamp (at_logged sch))
              (Db.update_failed (map Db.id sel) (syncDb s));
          timers := timers s ++ [now (at_replied sch) + 30000];
          sent := sent s ++ [b] |})
  end.
Proof.
  intros Hflag Hsel. unfold performSync. rewrite Hflag.
  rewrite getPendingRecords_flag, (nonempty_length _ Hsel).
  unfold sendToCloud, sendToCloud_settle.
  fold (envelope cfg sch s). cbv zeta.
  destruct (post cfg (at_replied sch) (envelope cfg sch s)) as [res|error].
  - destruct (JS.truthy (field "success" res)); reflexivity.
  - reflexivity.
Qed.

End ManagerFacts.

(** ** Interleaved runs *)

Section StepFacts.

Variable cfg : config.

Lemma fire_call (e : env) (s : state) :
  fire cfg (Call e) {| shared := s; tasks := [] |} =
  {| shared := snd (call e s); tasks := [fst (call e s)] |}.
Proof. simpl. now destruct (call e s). Qed.

Lemma fire_resume_only (e : env) (st : stage) (s : state) :
  fire cfg (Resume 0 e) {| shared := s; tasks := [st] |} =
  {| shared := snd (resume cfg e st s); tasks := [fst (resume cfg e st s)] |}.
Proof. simpl. now destruct (resume cfg e st s). Qed.

(** Run to its end without interruption, an invocation does what
    [performSync] does. *)
Lemma performSync_stepwise (sch : schedule) (s : state) :
  run cfg (uninterrupted 0 sch) {| shared := s; tasks := [] |} =
  {| shared := snd (performSync cfg sch s);
     tasks := [Returned (fst (performSync cfg sch s))] |}.
Proof.
  unfold uninterrupted, run. cbn [fold_left]. rewrite fire_call.
  unfold performSync, call.
  destruct (syncInProgress s) eqn:Hflag; cbn [fst snd].
  { now rewrite !fire_resume_only. }
  rewrite fire_resume_only. cbn [resume].
  rewrite getPendingRecords_flag.
  destruct (List.length (getPendingRecords cfg (batchSize cfg) s) =? 0)%nat;
    cbn [fst snd].
  { now rewrite !fire_resume_only. }
  rewrite fire_resume_only. cbn [resume]. unfold sendToCloud.
  destruct (sendToCloud_settle cfg (at_replied sch) _ _) as [res s1].
  destruct (JS.truthy (field "success" res)); cbn [fst snd];
    now rewrite !fire_resume_only.
Qed.

Lemma replace_in_flight (i : nat) (st st' : stage) (l : list stage) :
  nth_error l i = Some st ->
  (List.length (filter dispatching (replace i st' l)) +
   (if dispatching st then 1 else 0) =
   List.length (filter dispatching l) +
   (if dispatching st' then 1 else 0))%nat.
Proof.
  revert i. induction l as [|x l IH]; intros [|i] H; simpl in H;
    try discriminate.
  - injection H as ->. simpl.
    destruct (dispatching st), (dispatching st'); simpl; lia.
  - simpl. specialize (IH i H). destruct (dispatching x); simpl; lia.
Qed.

(** A suspended invocation holds the flag until it returns. *)
Lemma resume_flag (e : env) (st : stage) (s : state) :
  dispatching st = true ->
  syncInProgress s = true ->
  syncInProgress (snd (resume cfg e st s)) =
  dispatching (fst (resume cfg e st s)).
Proof.
  intros Hst Hflag.
  destruct st as [b t|b t sel env|b t sel res|b t sel res|b n ok msg dur res|res];
    simpl in *; try discriminate.
  - destruct (List.length _ =? 0)%nat; simpl; [reflexivity | assumption].
  - unfold sendToCloud_settle. destruct (post cfg e env) as [r|f].
    + destruct (JS.truthy (field "success" r)); assumption.
    + simpl. assumption.
  - assumption.
  - assumption.
  - reflexivity.
Qed.

Lemma resume_returned (e : env) (st : stage) (s : state) :
  dispatching st = false -> resume cfg e st s = (st, s).
Proof. destruct st; simpl; intros H; try discriminate; reflexivity. Qed.

Lemma addToSyncQueue_flag (e : env) (data : JS.value) (s : state) :
  syncInProgress (snd (addToSyncQueue e data s)) = syncInProgress s.
Proof.
  unfold addToSyncQueue.
  destruct (JS.JSON_stringify data); try reflexivity;
    destruct (JS.get data "userId"), (JS.get data "type"); reflexivity.
Qed.

Lemma fire_exclusive (ev : event) (sys : system) :
  exclusive sys -> exclusive (fire cfg ev sys).
Proof.
  unfold exclusive, in_flight. intros Hinv. destruct ev as [e|i e|e data|].
  - simpl. unfold call.
    destruct (syncInProgress (shared sys)) eqn:Hflag; simpl;
      rewrite ?Hflag, filter_app, length_app, Hinv; reflexivity.
  - simpl. destruct (nth_error (tasks sys) i) as [st|] eqn:Hnth;
      [|assumption].
    destruct (dispatching st) eqn:Hst.
    + pose proof (replace_in_flight i st (fst (resume cfg e st (shared sys)))
                    (tasks sys) Hnth) as Hcount.
      rewrite Hst in Hcount.
      assert (Hflag : syncInProgress (shared sys) = true).
      { destruct (syncInProgress (shared sys)); [reflexivity|].
        pose proof (replace_in_flight i st (Returned []) (tasks sys) Hnth)
          as Hone.
        rewrite Hst in Hone. simpl in Hone. lia. }
      pose proof (resume_flag e st (shared sys) Hst Hflag) as Hnext.
      rewrite Hflag in Hinv.
      destruct (resume cfg e st (shared sys)) as [st' s']. simpl in *.
      rewrite Hnext. destruct (dispatching st'); lia.
    + rewrite (resume_returned e st _ Hst). simpl.
      pose proof (replace_in_flight i st st (tasks sys) Hnth). lia.
  - simpl. now rewrite addToSyncQueue_flag.
  - simpl. destruct (timers (shared sys)); assumption.
Qed.

Lemma run_exclusive (evs : list event) (sys : system) :
  exclusive sys -> exclusive (run cfg evs sys).
Proof.
  revert sys. induction evs as [|ev evs IH]; intros sys H; simpl.
  - assumption.
  - apply IH. now apply fire_exclusive.
Qed.

Lemma boot_exclusive (d : Db.database) : exclusive (boot d).
Proof. reflexivity. Qed.

End StepFacts.

(** ** Selection *)

Section SelectionFacts.

Variable cfg : config.

Lemma getPendingRecords_In (lim : Z) (s : state) (r : Db.queue_row) :
  In r (getPendingRecords cfg lim s) ->
  In r (queue s) /\ Db.sync_status r = Db.pending /\
  Db.retry_count r < retryAttempts cfg.
Proof. apply DbFacts.select_pending_In. Qed.

Lemma getPendingRecords_length (s : state) :
  0 <= batchSize cfg ->
  List.length (getPendingRecords cfg (batchSize cfg) s) =
  Nat.min (Z.to_nat (batchSize cfg)) (List.length (eligible cfg s)).
Proof. apply DbFacts.select_pending_length. Qed.

Lemma envelope_ids (sch : schedule) (s : state) :
  map rec_id (records (envelope cfg sch s)) =
  map Db.id (getPendingRecords cfg (batchSize cfg) s).
Proof. simpl. now rewrite map_map. Qed.

(** A call that finds nothing to send changes nothing. *)
Lemma performSync_idle (sch : schedule) (s : state) :
  syncInProgress s = false ->
  getPendingRecords cfg (batchSize cfg) s = [] ->
  performSync cfg sch s = (no_data, s).
Proof.
  intros Hflag Hsel. unfold performSync.
  rewrite Hflag, getPendingRecords_flag, Hsel. simpl.
  destruct s; simpl in *; now subst.
Qed.

(** An accepted batch leaves the backlog shorter by its size. *)
Lemma performSync_accepted (sch : schedule) (s : state) :
  syncInProgress s = false ->
  0 < batchSize cfg ->
  NoDup (map Db.id (queue s)) ->
  eligible cfg s <> [] ->
  accepted cfg (at_replied sch) (envelope cfg sch s) = true ->
  let s' := snd (performSync cfg sch s) in
  let size :=
    Nat.min (Z.to_nat (batchSize cfg)) (List.length (eligible cfg s)) in
  syncInProgress s' = false /\
  NoDup (map Db.id (queue s')) /\
  List.length (eligible cfg s') = (List.length (eligible cfg s) - size)%nat /\
  sizes (sent s') = sizes (sent s) ++ [size].
Proof.
  intros Hflag Hpos Hnd Hne Hok s' size.
  assert (Hlen : List.length (getPendingRecords cfg (batchSize cfg) s) = size)
    by (apply getPendingRecords_length; lia).
  assert (Hsel : getPendingRecords cfg (batchSize cfg) s <> []).
  { intros E. rewrite E in Hlen. simpl in Hlen. subst size.
    destruct (eligible cfg s); [congruence | simpl in Hlen; lia]. }
  subst s'. rewrite (performSync_dispatch cfg sch s Hflag Hsel).
  unfold accepted in Hok. cbv zeta.
  destruct (post cfg (at_replied sch) (envelope cfg sch s)) as [res|f];
    [|discriminate].
  rewrite Hok. unfold eligible, queue. cbn [snd syncInProgress syncDb sent].
  cbn [Db.insert_sync_log Db.sync_queue].
  repeat split.
  - now rewrite DbFacts.update_synced_ids.
  - unfold getPendingRecords.
    rewrite DbFacts.update_synced_backlog by exact Hnd.
    fold (getPendingRecords cfg (batchSize cfg) s). now rewrite Hlen.
  - unfold sizes. rewrite map_app. simpl. now rewrite length_map, Hlen.
Qed.

End SelectionFacts.

(** ** What a dispatch does to the queue *)

Section DispatchFacts.

Variable cfg : config.

Lemma Forall2_map_r {A B : Type} (P : A -> B -> Prop) (f : A -> B)
    (l : list A) :
  (forall x, P x (f x)) -> Forall2 P l (map f l).
Proof. intros H. induction l; simpl; constructor; auto. Qed.

Lemma performSync_sent (sch : schedule) (s : state) :
  syncInProgress s = false ->
  getPendingRecords cfg (batchSize cfg) s <> [] ->
  sent (snd (performSync cfg sch s)) = sent s ++ [envelope cfg sch s].
Proof.
  intros Hflag Hsel. rewrite (performSync_dispatch cfg sch s Hflag Hsel).
  cbv zeta. now destruct (post cfg (at_replied sch) (envelope cfg sch s)).
Qed.

(** After an outcome that is not a success, the queue is the one
    [handleSyncFailure] leaves. *)
Lemma performSync_unsuccessful (sch : schedule) (s : state) :
  syncInProgress s = false ->
  getPendingRecords cfg (batchSize cfg) s <> [] ->
  accepted cfg (at_replied sch) (envelope cfg sch s) = false ->
  queue (snd (performSync cfg sch s)) =
  map (fun r =>
         if Db.id_in (map rec_id (records (envelope cfg sch s))) r
         then mark_failed r else r) (queue s).
Proof.
  intros Hflag Hsel Hko. rewrite (performSync_dispatch cfg sch s Hflag Hsel).
  rewrite envelope_ids. unfold accepted in Hko. cbv zeta.
  destruct (post cfg (at_replied sch) (envelope cfg sch s)) as [res|f].
  - now rewrite Hko.
  - reflexivity.
Qed.

(** The breaker after a call: tripped when [sendToCloud] caught an
    error, as it was otherwise. *)
Lemma performSync_isOnline (sch : schedule) (s : state) :
  isOnline (snd (performSync cfg sch s)) = isOnline s \/
  (isOnline (snd (performSync cfg sch s)) = false /\
   syncInProgress s = false /\
   getPendingRecords cfg (batchSize cfg) s <> [] /\
   exists f, post cfg (at_replied sch) (envelope cfg sch s) = inr f).
Proof.
  destruct (syncInProgress s) eqn:Hflag.
  - left. unfold performSync. now rewrite Hflag.
  - assert (Hcase : getPendingRecords cfg (batchSize cfg) s = [] \/
                    getPendingRecords cfg (batchSize cfg) s <> [])
      by (destruct (getPendingRecords cfg (batchSize cfg) s);
          [now left | right; discriminate]).
    destruct Hcase as [Hnil|Hne].
    + left. now rewrite performSync_idle.
    + rewrite (performSync_dispatch cfg sch s Hflag Hne). cbv zeta.
      destruct (post cfg (at_replied sch) (envelope cfg sch s)) as [res|f].
      * now left.
      * right. split; [reflexivity|]. split; [reflexivity|].
        split; [exact Hne|]. now exists f.
Qed.

(** A call changes the status and the count of attempts of rows, and
    nothing else of the queue. *)
Lemma performSync_origin (sch : schedule) (s : state) :
  map origin (queue (snd (performSync cfg sch s))) = map origin (queue s).
Proof.
  destruct (syncInProgress s) eqn:Hflag.
  - unfold performSync. now rewrite Hflag.
  - assert (Hcase : getPendingRecords cfg (batchSize cfg) s = [] \/
                    getPendingRecords cfg (batchSize cfg) s <> [])
      by (destruct (getPendingRecords cfg (batchSize cfg) s);
          [now left | right; discriminate]).
    destruct Hcase as [Hnil|Hne].
    + now rewrite performSync_idle.
    + rewrite (performSync_dispatch cfg sch s Hflag Hne). cbv zeta.
      destruct (post cfg (at_replied sch) (envelope cfg sch s)) as [res|f];
        [destruct (JS.truthy (field "success" res))|];
        unfold queue; simpl; rewrite map_map; apply map_ext; intros r;
        now destruct (Db.id_in _ r).
Qed.

End DispatchFacts.

(** * The claims of the specification *)

(** C3. Whatever the state of the store, a record whose [retry_count]
    has reached [retryAttempts] is in no selection, hence in no batch
    that is dispatched afterwards. *)
Theorem exhausted_record_never_selected
    (cfg : config) (lim : Z) (s : state) (r : Db.queue_row) :
  retryAttempts cfg <= Db.retry_count r ->
  ~ In r (getPendingRecords cfg lim s).
Proof.
  intros Hmax Hin. apply getPendingRecords_In in Hin. lia.
Qed.

Lemma exhausted_record_never_selected_witness :
  retryAttempts CLOUD_CONFIG <= Db.retry_count exhausted_row /\
  In exhausted_row (queue exhausted) /\
  ~ In exhausted_row
      (getPendingRecords CLOUD_CONFIG (batchSize CLOUD_CONFIG) exhausted).
Proof.
  split; [simpl; lia|]. split; [now left|].
  apply (exhausted_record_never_selected CLOUD_CONFIG
           (batchSize CLOUD_CONFIG) exhausted exhausted_row).
  simpl. lia.
Defined.

(** C1. The selection takes pending records only.  After one failed
    dispatch the record is [failed] with [retry_count] 1, below the
    ceiling of 3, and yet the next selection is empty and the next call
    finds nothing to send: the record is never tried again. *)
Theorem failed_record_not_retried :
  map (fun r => (Db.sync_status r, Db.retry_count r)) (queue failed_once) =
    [(Db.failed, 1)] /\
  retryAttempts CLOUD_CONFIG = 3 /\
  getPendingRecords CLOUD_CONFIG (batchSize CLOUD_CONFIG) failed_once = [] /\
  fst (performSync CLOUD_CONFIG (throughout (at_time 50)) failed_once) =
    no_data.
Proof. vm_compute. repeat split. Qed.

(** C8. A selection, and so the batch built from it, never has more
    than [batchSize] records; with [batchSize] 2 and five records to
    send, three accepted dispatches send batches of 2, 2 and 1 records
    and empty the backlog, and a fourth call finds nothing to send. *)
Theorem batch_bounded_and_drained :
  (forall (cfg : config) (sch : schedule) (s : state),
     0 <= batchSize cfg ->
     Z.of_nat (List.length (getPendingRecords cfg (batchSize cfg) s))
       <= batchSize cfg /\
     Z.of_nat (List.length (records (envelope cfg sch s))) <= batchSize cfg) /\
  (forall (cfg : config) (sch1 sch2 sch3 sch4 : schedule) (s : state),
     batchSize cfg = 2 ->
     syncInProgress s = false ->
     NoDup (map Db.id (queue s)) ->
     List.length (eligible cfg s) = 5%nat ->
     (forall b, accepted cfg (at_replied sch1) b = true) ->
     (forall b, accepted cfg (at_replied sch2) b = true) ->
     (forall b, accepted cfg (at_replied sch3) b = true) ->
     let s1 := snd (performSync cfg sch1 s) in
     let s2 := snd (performSync cfg sch2 s1) in
     let s3 := snd (performSync cfg sch3 s2) in
     sizes (sent s3) = sizes (sent s) ++ [2; 2; 1]%nat /\
     eligible cfg s3 = [] /\
     performSync cfg sch4 s3 = (no_data, s3)).
Proof.
  split.
  - intros cfg sch s Hb.
    assert (H : Z.of_nat (List.length (getPendingRecords cfg (batchSize cfg) s))
                <= batchSize cfg)
      by (rewrite getPendingRecords_length by assumption; lia).
    split; [exact H|]. simpl. now rewrite length_map.
  - intros cfg sch1 sch2 sch3 sch4 s Hb Hflag Hnd Hfive Ok1 Ok2 Ok3 s1 s2 s3.
    assert (Hpos : 0 < batchSize cfg) by lia.
    destruct (performSync_accepted cfg sch1 s Hflag Hpos Hnd)
      as (Hflag1 & Hnd1 & Hlen1 & Hsent1);
      [intros E; rewrite E in Hfive; discriminate | apply Ok1 |].
    fold s1 in Hflag1, Hnd1, Hlen1, Hsent1.
    rewrite Hb, Hfive in Hlen1, Hsent1. simpl in Hlen1, Hsent1.
    destruct (performSync_accepted cfg sch2 s1 Hflag1 Hpos Hnd1)
      as (Hflag2 & Hnd2 & Hlen2 & Hsent2);
      [intros E; rewrite E in Hlen1; discriminate | apply Ok2 |].
    fold s2 in Hflag2, Hnd2, Hlen2, Hsent2.
    rewrite Hb, Hlen1 in Hlen2, Hsent2. simpl in Hlen2, Hsent2.
    destruct (performSync_accepted cfg sch3 s2 Hflag2 Hpos Hnd2)
      as (Hflag3 & Hnd3 & Hlen3 & Hsent3);
      [intros E; rewrite E in Hlen2; discriminate | apply Ok3 |].
    fold s3 in Hflag3, Hnd3, Hlen3, Hsent3.
    rewrite Hb, Hlen2 in Hlen3, Hsent3. simpl in Hlen3, Hsent3.
    assert (Hnone : eligible cfg s3 = [])
      by (destruct (eligible cfg s3); [reflexivity | discriminate]).
    split; [|split].
    + rewrite Hsent3, Hsent2, Hsent1, <- !app_assoc. reflexivity.
    + exact Hnone.
    + apply performSync_idle; [exact Hflag3|].
      unfold getPendingRecords, Db.select_pending.
      unfold eligible, queue in Hnone. rewrite Hnone. simpl.
      unfold Db.limit. destruct (batchSize cfg <? 0); [reflexivity|].
      apply firstn_nil.
Qed.

Lemma batch_bounded_and_drained_witness :
  (0 <= batchSize pairs /\
   Z.of_nat (List.length (getPendingRecords pairs (batchSize pairs) five_pending))
     <= batchSize pairs) /\
  (batchSize pairs = 2 /\
   List.length (eligible pairs five_pending) = 5%nat /\
   let s1 := snd (performSync pairs (throughout (at_time 6)) five_pending) in
   let s2 := snd (performSync pairs (throughout (at_time 7)) s1) in
   let s3 := snd (performSync pairs (throughout (at_time 8)) s2) in
   sizes (sent s3) = [2; 2; 1]%nat /\
   eligible pairs s3 = [] /\
   performSync pairs (throughout (at_time 9)) s3 = (no_data, s3)).
Proof.
  split.
  - split; [simpl; lia|].
    apply (proj1 batch_bounded_and_drained pairs (throughout (at_time 6))
             five_pending).
    simpl; lia.
  - split; [reflexivity|]. split; [reflexivity|].
    apply (proj2 batch_bounded_and_drained pairs
             (throughout (at_time 6)) (throughout (at_time 7))
             (throughout (at_time 8)) (throughout (at_time 9)) five_pending).
    + reflexivity.
    + reflexivity.
    + simpl. repeat constructor; simpl; intuition discriminate.
    + reflexivity.
    + reflexivity.
    + reflexivity.
    + reflexivity.
Defined.

(** C9 (as amended). A batch lists its records by ascending
    [created_at]; it is sent in that order; and it is in strictly
    ascending order of id whenever the rows of the queue carry
    timestamps that never go back as the ids grow. *)
Theorem batch_in_created_at_order
    (cfg : config) (sch : schedule) (s : state) :
  StronglySorted by_created_at (getPendingRecords cfg (batchSize cfg) s) /\
  (syncInProgress s = false ->
   getPendingRecords cfg (batchSize cfg) s <> [] ->
   sent (snd (performSync cfg sch s)) = sent s ++ [envelope cfg sch s]) /\
  (StronglySorted in_clock_order (queue s) ->
   StronglySorted Z.lt (map rec_id (records (envelope cfg sch s)))).
Proof.
  split; [apply DbFacts.select_pending_sorted|].
  split; [apply performSync_sent|].
  intros Hq. rewrite envelope_ids.
  unfold getPendingRecords, Db.select_pending.
  assert (He : StronglySorted in_clock_order (eligible cfg s))
    by now apply DbFacts.StronglySorted_filter.
  fold (queue s). fold (eligible cfg s).
  rewrite DbFacts.order_by_created_at_fixed.
  - apply (DbFacts.StronglySorted_map in_clock_order).
    + intros a b [Hid _]. exact Hid.
    + now apply DbFacts.StronglySorted_limit.
  - apply (DbFacts.StronglySorted_impl in_clock_order); [|exact He].
    intros a b [_ Hc]. exact Hc.
Qed.

Lemma batch_in_created_at_order_witness :
  StronglySorted in_clock_order (queue five_pending) /\
  StronglySorted Z.lt
    (map rec_id
       (records (envelope CLOUD_CONFIG (throughout (at_time 6)) five_pending))).
Proof.
  assert (H : StronglySorted in_clock_order (queue five_pending)).
  { vm_compute queue.
    repeat (constructor; [|repeat constructor; simpl; lia]). constructor. }
  split; [exact H|].
  apply (batch_in_created_at_order CLOUD_CONFIG (throughout (at_time 6))
           five_pending).
  exact H.
Defined.

(** C9 (as stated) fails: after the clock was set back between two
    inserts, the batch that is sent lists record 2 before record 1. *)
Lemma batch_not_in_id_order :
  map Db.id (queue clock_set_back) = [1; 2] /\
  map rec_id
    (records (envelope CLOUD_CONFIG (throughout (at_time 11)) clock_set_back))
    = [2; 1] /\
  sent (snd (performSync CLOUD_CONFIG (throughout (at_time 11)) clock_set_back))
    = [envelope CLOUD_CONFIG (throughout (at_time 11)) clock_set_back] /\
  ~ StronglySorted Z.lt
      (map rec_id
         (records
            (envelope CLOUD_CONFIG (throughout (at_time 11)) clock_set_back))).
Proof.
  split; [reflexivity|]. split; [reflexivity|]. split; [reflexivity|].
  intros H. vm_compute in H. inversion H as [|? ? _ Hall]; subst.
  inversion Hall as [|? ? Hlt _]; subst. discriminate Hlt.
Qed.

(** C7. When the outcome of the transport is not a success, every row
    whose id is in the batch becomes [failed] with its [retry_count]
    raised by one, whatever the size of the batch, and no other row
    changes; every selected row is among them. *)
Theorem failed_batch_marked_once
    (cfg : config) (sch : schedule) (s : state) :
  syncInProgress s = false ->
  getPendingRecords cfg (batchSize cfg) s <> [] ->
  accepted cfg (at_replied sch) (envelope cfg sch s) = false ->
  let ids := map rec_id (records (envelope cfg sch s)) in
  let s' := snd (performSync cfg sch s) in
  sent s' = sent s ++ [envelope cfg sch s] /\
  (forall r, In r (getPendingRecords cfg (batchSize cfg) s) ->
             In r (queue s) /\ Db.id_in ids r = true) /\
  Forall2
    (fun r r' =>
       Db.id r' = Db.id r /\
       if Db.id_in ids r
       then Db.sync_status r' = Db.failed /\
            Db.retry_count r' = Db.retry_count r + 1
       else r' = r)
    (queue s) (queue s').
Proof.
  intros Hflag Hsel Hko ids s'. split; [|split].
  - now apply performSync_sent.
  - intros r Hr. split; [now apply (getPendingRecords_In cfg) in Hr|].
    apply DbFacts.id_in_spec. subst ids. rewrite envelope_ids.
    now apply in_map.
  - subst s'. rewrite (performSync_unsuccessful cfg sch s Hflag Hsel Hko).
    apply Forall2_map_r. intros r. fold ids.
    destruct (Db.id_in ids r); simpl; auto.
Qed.

Lemma failed_batch_marked_once_witness :
  let sch := throughout (failing (at_time 6)) in
  accepted pairs (at_replied sch) (envelope pairs sch five_pending) = false /\
  map rec_id (records (envelope pairs sch five_pending)) = [1; 2] /\
  map (fun r => (Db.id r, Db.sync_status r, Db.retry_count r))
      (queue (snd (performSync pairs sch five_pending))) =
    [(1, Db.failed, 1); (2, Db.failed, 1); (3, Db.pending, 0);
     (4, Db.pending, 0); (5, Db.pending, 0)] /\
  Forall2
    (fun r r' =>
       Db.id r' = Db.id r /\
       if Db.id_in (map rec_id (records (envelope pairs sch five_pending))) r
       then Db.sync_status r' = Db.failed /\
            Db.retry_count r' = Db.retry_count r + 1
       else r' = r)
    (queue five_pending) (queue (snd (performSync pairs sch five_pending))).
Proof.
  intros sch. split; [reflexivity|]. split; [reflexivity|].
  split; [reflexivity|].
  apply (failed_batch_marked_once pairs sch five_pending).
  - reflexivity.
  - discriminate.
  - reflexivity.
Defined.

(** C2. In every run of the process at most one invocation of
    [performSync] is between its guard and its return; a call made while
    one is there returns the report [Sync already in progress] at once
    and leaves the whole state as it was: no selection, no envelope given
    to the transport, no row changed. *)
Theorem single_dispatch_in_flight (cfg : config) :
  (forall (d : Db.database) (evs : list event),
     (in_flight (run cfg evs (boot d)) <= 1)%nat) /\
  (forall (d : Db.database) (evs : list event) (e : env),
     let sys := run cfg evs (boot d) in
     in_flight sys = 1%nat ->
     fire cfg (Call e) sys =
     {| shared := shared sys;
        tasks := tasks sys ++ [Returned already_in_progress] |}) /\
  (forall (sch : schedule) (s : state),
     syncInProgress s = true ->
     performSync cfg sch s = (already_in_progress, s)).
Proof.
  split; [|split].
  - intros d evs.
    pose proof (run_exclusive cfg evs (boot d) (boot_exclusive d)) as H.
    unfold exclusive in H. rewrite H.
    destruct (syncInProgress (shared (run cfg evs (boot d)))); lia.
  - intros d evs e sys Hone.
    pose proof (run_exclusive cfg evs (boot d) (boot_exclusive d)) as H.
    fold sys in H. unfold exclusive in H. simpl. unfold call.
    destruct (syncInProgress (shared sys)); [reflexivity|].
    rewrite Hone in H. discriminate.
  - intros sch s Hflag. unfold performSync. now rewrite Hflag.
Qed.

Lemma single_dispatch_in_flight_witness :
  let evs := [Enqueue (at_time 10) launch; Call (at_time 11);
              Resume 0 (at_time 11)] in
  let sys := run CLOUD_CONFIG evs (boot Db.empty) in
  (in_flight sys = 1%nat /\
   tasks (fire CLOUD_CONFIG (Call (at_time 12)) sys) =
     tasks sys ++ [Returned already_in_progress] /\
   shared (fire CLOUD_CONFIG (Call (at_time 12)) sys) = shared sys) /\
  (syncInProgress (set_syncInProgress true one_pending) = true /\
   performSync CLOUD_CONFIG (throughout (at_time 12))
     (set_syncInProgress true one_pending) =
   (already_in_progress, set_syncInProgress true one_pending)).
Proof.
  intros evs sys.
  pose proof (proj1 (proj2 (single_dispatch_in_flight CLOUD_CONFIG))
                Db.empty evs (at_time 12) eq_refl) as Hcall.
  fold sys in Hcall.
  split.
  - split; [reflexivity|]. now rewrite Hcall.
  - split; [reflexivity|].
    apply (proj2 (proj2 (single_dispatch_in_flight CLOUD_CONFIG))).
    reflexivity.
Defined.

(** C4 (as amended). The breaker trips on every error that
    [sendToCloud] catches, whatever its class: the batch is marked
    failed, [isOnline] becomes false and the timer of 30 s is set.  An
    HTTP error response of the endpoint is one of these errors. *)
Theorem breaker_trips_on_every_failure
    (cfg : config) (sch : schedule) (s : state) (f : failure) :
  syncInProgress s = false ->
  getPendingRecords cfg (batchSize cfg) s <> [] ->
  post cfg (at_replied sch) (envelope cfg sch s) = inr f ->
  let s' := snd (performSync cfg sch s) in
  isOnline s' = false /\
  timers s' = timers s ++ [now (at_replied sch) + 30000] /\
  queue s' =
    map (fun r =>
           if Db.id_in (map rec_id (records (envelope cfg sch s))) r
           then mark_failed r else r) (queue s).
Proof.
  intros Hflag Hsel Hpost s'. split; [|split].
  - subst s'. rewrite (performSync_dispatch cfg sch s Hflag Hsel).
    cbv zeta. now rewrite Hpost.
  - subst s'. rewrite (performSync_dispatch cfg sch s Hflag Hsel).
    cbv zeta. now rewrite Hpost.
  - apply performSync_unsuccessful; trivial.
    unfold accepted. now rewrite Hpost.
Qed.

Lemma breaker_trips_on_every_failure_witness :
  let sch := throughout (refused (at_time 11)) in
  post live (at_replied sch) (envelope live sch one_pending) =
    inr (ErrorResponse 400 (Some "Malformed payload")) /\
  isOnline (snd (performSync live sch one_pending)) = false /\
  timers (snd (performSync live sch one_pending)) = [41000].
Proof.
  intros sch. split; [reflexivity|].
  destruct (breaker_trips_on_every_failure live sch one_pending
              (ErrorResponse 400 (Some "Malformed payload")))
    as (Hoff & Htimer & _).
  - reflexivity.
  - discriminate.
  - reflexivity.
  - split; [exact Hoff | exact Htimer].
Defined.

(** C4 (as stated) fails: the endpoint is reached and answers 400, and
    the manager, online before the call, is offline after it. *)
Lemma breaker_trips_on_remote_rejection :
  let sch := throughout (refused (at_time 11)) in
  isOnline one_pending = true /\
  axios_post (at_replied sch) =
    Rejected (ErrorResponse 400 (Some "Malformed payload")) /\
  fst (performSync live sch one_pending) =
    [("success", JS.Bool false);
     ("error", JS.Str "HTTP 400: Malformed payload")] /\
  map Db.sync_status (queue (snd (performSync live sch one_pending))) =
    [Db.failed] /\
  isOnline (snd (performSync live sch one_pending)) = false.
Proof. vm_compute. repeat split. Qed.

(** *** What an enqueue does *)

Lemma addToSyncQueue_effect (e : env) (data : JS.value) (s : state) :
  (exists msg, addToSyncQueue e data s = (inl msg, s)) \/
  (exists row s',
     addToSyncQueue e data s = (inr (Db.id row), s') /\
     queue s' = queue s ++ [row] /\
     Db.sync_status row = Db.pending /\ Db.retry_count row = 0 /\
     Db.id row = Db.sync_queue_seq (syncDb s) + 1 /\
     Db.sync_queue_seq (syncDb s') = Db.id row /\
     Db.sync_logs (syncDb s') = Db.sync_logs (syncDb s) /\
     Db.user_activity (syncDb s') = Db.user_activity (syncDb s) /\
     isOnline s' = isOnline s /\ syncInProgress s' = syncInProgress s /\
     lastSyncTime s' = lastSyncTime s /\
     timers s' = timers s /\ sent s' = sent s).
Proof.
  unfold addToSyncQueue.
  destruct (JS.JSON_stringify data) as [| |doc]; [left; eauto| |];
    (destruct (JS.get data "userId") as [u|]; [|left; eauto]);
    (destruct (JS.get data "type") as [t|]; [|left; eauto]);
    right;
    eexists {| Db.id := Db.sync_queue_seq (syncDb s) + 1;
               Db.user_id := _; Db.event_type := _; Db.data := _;
               Db.timestamp := _; Db.sync_status := _;
               Db.retry_count := _; Db.created_at := _ |};
    eexists; cbn [Db.insert_sync_queue Db.id];
    (split; [reflexivity|]); unfold queue; simpl; repeat split.
Qed.

Lemma replace_same {A : Type} (l : list A) (i : nat) (x : A) :
  nth_error l i = Some x -> replace i x l = l.
Proof.
  revert i. induction l as [|y l IH]; intros [|i] H; simpl in *;
    try discriminate; [now injection H as -> | now rewrite IH].
Qed.

(** *** The program as its exports drive it *)

Section ProcessFacts.

Variable cfg : config.

Lemma logActivity_keeps (e : env) (eventData : JS.value) (s : state) :
  isOnline (logActivity e eventData s) = isOnline s /\
  syncInProgress (logActivity e eventData s) = syncInProgress s /\
  lastSyncTime (logActivity e eventData s) = lastSyncTime s /\
  timers (logActivity e eventData s) = timers s /\
  sent (logActivity e eventData s) = sent s /\
  queue (logActivity e eventData s) = queue s /\
  Db.sync_queue_seq (syncDb (logActivity e eventData s)) =
    Db.sync_queue_seq (syncDb s) /\
  Db.sync_logs (syncDb (logActivity e eventData s)) =
    Db.sync_logs (syncDb s).
Proof.
  unfold logActivity.
  destruct (JS.get eventData "userId"), (JS.get eventData "type"),
    (JS.get eventData "timestamp"); try (repeat split; reflexivity).
  destruct (JS.JSON_stringify eventData); repeat split; reflexivity.
Qed.

Lemma perform_exclusive (st : step) (sys : system) :
  exclusive sys -> exclusive (perform cfg st sys).
Proof.
  intros H. destruct st as [e|e data|e data|e|i e|]; cbn [perform];
    try (now apply fire_exclusive).
  - destruct (negb (isOnline (shared sys))); [exact H|].
    destruct (now e - lastSyncTime (shared sys) >=? syncInterval cfg);
      [now apply fire_exclusive | exact H].
  - unfold exclusive, in_flight in *. cbn [shared tasks].
    destruct (logActivity_keeps e data (shared sys)) as (_ & Hf & _).
    now rewrite Hf.
  - destruct (isOnline (shared sys) && negb (syncInProgress (shared sys)));
      [now apply fire_exclusive | exact H].
Qed.

Lemma others_idle (l : list stage) (i : nat) (st st' : stage) :
  (List.length (filter dispatching l) <= 1)%nat ->
  nth_error l i = Some st -> dispatching st = true ->
  forall x, In x (replace i st' l) -> x = st' \/ dispatching x = false.
Proof.
  revert i. induction l as [|y l IH]; intros [|i] Hone Hnth Hst x Hx;
    simpl in Hnth; try discriminate.
  - injection Hnth as ->. simpl in Hone. rewrite Hst in Hone.
    simpl in Hone, Hx. destruct Hx as [<-|Hx]; [now left|]. right.
    destruct (dispatching x) eqn:Ex; [|reflexivity].
    assert (Hin : In x (filter dispatching l)) by (apply filter_In; tauto).
    destruct (filter dispatching l); [destruct Hin | simpl in Hone; lia].
  - simpl in Hone, Hx. destruct (dispatching y) eqn:Ey.
    + pose proof (replace_in_flight i st (Returned []) l Hnth) as Hc.
      rewrite Hst in Hc. simpl in Hc, Hone. lia.
    + destruct Hx as [<-|Hx]; [now right|]. now apply (IH i Hone Hnth Hst).
Qed.

Lemma resume_attentive (e : env) (st : stage) (s : state) :
  (expects_online st = true -> isOnline s = true) ->
  expects_online (fst (resume cfg e st s)) = true ->
  isOnline (snd (resume cfg e st s)) = true.
Proof.
  destruct st as [b t|b t sel env|b t sel res|b t sel res|b n ok msg dur res
                 |res]; cbn [resume expects_online]; intros Hon.
  - destruct (List.length _ =? 0)%nat; cbn [fst snd expects_online];
      [discriminate | intros _; now apply Hon].
  - unfold sendToCloud_settle. destruct (post cfg e env) as [r|f].
    + destruct (JS.truthy (field "success" r)); cbn [fst snd expects_online];
        [intros _; now apply Hon | discriminate].
    + cbn [fst snd field JS.assoc String.eqb JS.truthy expects_online].
      simpl. discriminate.
  - cbn [fst snd expects_online]. intros _. now apply Hon.
  - cbn [fst snd expects_online]. discriminate.
  - cbn [fst snd expects_online]. discriminate.
  - cbn [fst snd expects_online]. discriminate.
Qed.

Lemma call_attentive (e : env) (sys : system) :
  isOnline (shared sys) = true ->
  attentive sys -> attentive (fire cfg (Call e) sys).
Proof.
  intros Hon Hat st. cbn [fire]. unfold call.
  destruct (syncInProgress (shared sys)); cbn [shared tasks]; intros Hin Hex;
    apply in_app_or in Hin; destruct Hin as [Hin|[<-|[]]];
    try discriminate; try exact Hon; now apply (Hat st).
Qed.

Lemma perform_attentive (st : step) (sys : system) :
  exclusive sys -> attentive sys -> attentive (perform cfg st sys).
Proof.
  intros Hex Hat. destruct st as [e|e data|e data|e|i e|]; cbn [perform].
  - destruct (isOnline (shared sys)) eqn:Hon; cbn [negb]; [|exact Hat].
    destruct (now e - lastSyncTime (shared sys) >=? syncInterval cfg);
      [now apply call_attentive | exact Hat].
  - intros x Hin Hx. cbn [shared tasks] in *.
    destruct (logActivity_keeps e data (shared sys)) as (Hon & _).
    rewrite Hon. now apply (Hat x).
  - intros x Hin Hx. cbn [fire shared tasks] in *.
    destruct (addToSyncQueue_effect e data (shared sys))
      as [[msg E]|(row & s' & E & _ & _ & _ & _ & _ & _ & _ & Hon & _)];
      rewrite E; cbn [snd]; [|rewrite Hon]; now apply (Hat x).
  - destruct (isOnline (shared sys)) eqn:Hon; cbn [andb]; [|exact Hat].
    destruct (negb (syncInProgress (shared sys)));
      [now apply call_attentive | exact Hat].
  - cbn [fire]. destruct (nth_error (tasks sys) i) as [st|] eqn:Hnth;
      [|exact Hat].
    destruct (dispatching st) eqn:Hst.
    2:{ rewrite (resume_returned cfg e st _ Hst), (replace_same _ _ _ Hnth).
        now destruct sys. }
    assert (Hone : (List.length (filter dispatching (tasks sys)) <= 1)%nat).
    { unfold exclusive, in_flight in Hex. rewrite Hex.
      destruct (syncInProgress (shared sys)); lia. }
    pose proof (resume_attentive e st (shared sys)
                  (Hat st (nth_error_In _ _ Hnth))) as Hnext.
    pose proof (others_idle (tasks sys) i st
                  (fst (resume cfg e st (shared sys))) Hone Hnth Hst) as Hoth.
    destruct (resume cfg e st (shared sys)) as [st' s'].
    cbn [fst snd] in *. intros x Hin Hx. cbn [shared tasks] in *.
    destruct (Hoth x Hin) as [->|Hidle]; [now apply Hnext|].
    destruct x; simpl in Hidle, Hx; discriminate.
  - cbn [fire]. destruct (timers (shared sys)); [exact Hat|].
    intros x _ _. reflexivity.
Qed.

Lemma execute_attentive (sts : list step) (sys : system) :
  exclusive sys -> attentive sys ->
  exclusive (execute cfg sts sys) /\ attentive (execute cfg sts sys).
Proof.
  revert sys. induction sts as [|st sts IH]; intros sys Hex Hat; simpl;
    [now split|].
  apply IH; [now apply perform_exclusive | now apply perform_attentive].
Qed.


Lemma boot_attentive (d : Db.database) : attentive (boot d).
Proof. intros st []. Qed.

End ProcessFacts.



(** C6 (as amended). The enqueuer does not look at the kind: an empty
    kind is stored as [activity].  An event that [JSON.stringify] cannot
    serialise is rejected with the error thrown, before any statement is
    run; and a rejected enqueue, whatever its cause, leaves the whole
    state as it was, through [addToSyncQueue], [syncData] and [logEvent]
    alike. *)
Theorem rejected_enqueue_writes_nothing :
  (forall (e : env) (data : JS.value) (s : state) (msg : string),
     fst (addToSyncQueue e data s) = inl msg ->
     snd (addToSyncQueue e data s) = s) /\
  (forall (e : env) (data : JS.value) (s : state),
     JS.JSON_stringify data = JS.Throws ->
     exists msg, addToSyncQueue e data s = (inl msg, s)) /\
  (forall (cfg : config) (e : env) (sch : schedule) (data : JS.value)
          (s : state),
     JS.JSON_stringify data = JS.Throws ->
     field "success" (fst (syncData cfg e sch data s)) = JS.Bool false /\
     snd (syncData cfg e sch data s) = s) /\
  (forall (e1 e2 : env) (data : JS.value) (s : state),
     JS.JSON_stringify data = JS.Throws ->
     field "success" (fst (logEvent e1 e2 data s)) = JS.Bool false /\
     snd (logEvent e1 e2 data s) = s) /\
  (forall (e : env) (props : list (string * JS.value)) (s : state),
     JS.JSON_stringify (JS.Object props) <> JS.Throws ->
     field "type" props = JS.Str "" ->
     fst (addToSyncQueue e (JS.Object props) s) =
       inr (Db.sync_queue_seq (syncDb s) + 1) /\
     map Db.event_type (queue (snd (addToSyncQueue e (JS.Object props) s))) =
       map Db.event_type (queue s) ++ [JS.Str "activity"]).
Proof.
  split; [|split; [|split; [|split]]].
  - intros e data s msg. unfold addToSyncQueue.
    destruct (JS.JSON_stringify data);
      try (destruct (JS.get data "userId"), (JS.get data "type"));
      simpl; intros H; try discriminate; reflexivity.
  - intros e data s H. unfold addToSyncQueue. rewrite H. eauto.
  - intros cfg e sch data s H. unfold syncData, addToSyncQueue.
    rewrite H. split; reflexivity.
  - intros e1 e2 data s H. unfold logEvent. rewrite H.
    destruct (JS.get data "userId"), (JS.get data "type"),
      (JS.get data "timestamp"); split; reflexivity.
  - intros e props s Hser Hty. unfold addToSyncQueue. simpl JS.get.
    fold (field "userId" props). fold (field "type" props). rewrite Hty.
    destruct (JS.JSON_stringify (JS.Object props)); [congruence| |];
      (split; [reflexivity|]); unfold queue; simpl;
      now rewrite map_app.
Qed.

Lemma rejected_enqueue_writes_nothing_witness :
  JS.JSON_stringify unserializable = JS.Throws /\
  (exists msg, addToSyncQueue (at_time 20) unserializable one_pending =
               (inl msg, one_pending)) /\
  snd (syncData CLOUD_CONFIG (at_time 20) (throughout (at_time 21))
         unserializable one_pending) = one_pending /\
  snd (logEvent (at_time 20) (at_time 21) unserializable one_pending) =
    one_pending /\
  fst (addToSyncQueue (at_time 20) empty_kind one_pending) = inr 2.
Proof.
  split; [reflexivity|]. split; [|split; [|split]].
  - apply (proj1 (proj2 rejected_enqueue_writes_nothing)). reflexivity.
  - apply (proj1 (proj2 (proj2 rejected_enqueue_writes_nothing))).
    reflexivity.
  - apply (proj1 (proj2 (proj2 (proj2 rejected_enqueue_writes_nothing)))).
    reflexivity.
  - apply (proj2 (proj2 (proj2 (proj2 rejected_enqueue_writes_nothing)))
             (at_time 20)
             [("userId", JS.Str "u1"); ("type", JS.Str "")] one_pending).
    + discriminate.
    + reflexivity.
Defined.

(** C6 (as stated) fails: an event whose kind is the empty string is
    not rejected; it is written to the queue, as an [activity]. *)
Lemma empty_kind_is_enqueued :
  JS.get empty_kind "type" = Some (JS.Str "") /\
  fst (addToSyncQueue (at_time 10) empty_kind (constructor Db.empty)) =
    inr 1 /\
  map (fun r => (Db.id r, Db.event_type r, Db.sync_status r))
      (queue (snd (addToSyncQueue (at_time 10) empty_kind
                     (constructor Db.empty)))) =
    [(1, JS.Str "activity", Db.pending)] /\
  field "success"
    (fst (syncData CLOUD_CONFIG (at_time 10) (throughout (at_time 11))
            empty_kind (constructor Db.empty))) = JS.Bool true /\
  queue (constructor Db.empty) = [].
Proof. vm_compute. repeat split. Qed.




(** * Further properties of the manager *)

(** ** One call of [performSync] *)

(** X1. When the transport accepts the batch, every row whose id is in
    the batch becomes [synced] with its count of attempts untouched, no
    other row changes, and neither the breaker nor the timers move. *)
Theorem accepted_batch_marked_synced
    (cfg : config) (sch : schedule) (s : state) :
  syncInProgress s = false ->
  getPendingRecords cfg (batchSize cfg) s <> [] ->
  accepted cfg (at_replied sch) (envelope cfg sch s) = true ->
  let ids := map rec_id (records (envelope cfg sch s)) in
  let s' := snd (performSync cfg sch s) in
  Forall2
    (fun r r' =>
       Db.id r' = Db.id r /\
       Db.retry_count r' = Db.retry_count r /\
       if Db.id_in ids r then Db.sync_status r' = Db.synced else r' = r)
    (queue s) (queue s') /\
  isOnline s' = isOnline s /\
  timers s' = timers s /\
  lastSyncTime s' = now (at_logged sch).
Proof.
  intros Hflag Hsel Hok ids s'. subst s'.
  rewrite (performSync_dispatch cfg sch s Hflag Hsel). cbv zeta.
  unfold accepted in Hok.
  destruct (post cfg (at_replied sch) (envelope cfg sch s)) as [res|f];
    [|discriminate].
  rewrite Hok. unfold queue. cbn [snd syncDb isOnline timers lastSyncTime].
  repeat split. cbn [Db.insert_sync_log Db.sync_queue Db.update_synced
                     Db.with_queue].
  apply Forall2_map_r. intros r. subst ids. rewrite envelope_ids.
  destruct (Db.id_in _ r); simpl; auto.
Qed.

Lemma accepted_batch_marked_synced_witness :
  let sch := throughout (at_time 6) in
  map rec_id (records (envelope pairs sch five_pending)) = [1; 2] /\
  map (fun r => (Db.id r, Db.sync_status r, Db.retry_count r))
      (queue (snd (performSync pairs sch five_pending))) =
    [(1, Db.synced, 0); (2, Db.synced, 0); (3, Db.pending, 0);
     (4, Db.pending, 0); (5, Db.pending, 0)] /\
  isOnline (snd (performSync pairs sch five_pending)) =
    isOnline five_pending.
Proof.
  intros sch. split; [reflexivity|]. split; [reflexivity|].
  destruct (accepted_batch_marked_synced pairs sch five_pending)
    as (_ & Hon & _).
  - reflexivity.
  - discriminate.
  - reflexivity.
  - exact Hon.
Defined.

(** X2. A call of [performSync] that sends a batch appends exactly one
    row to [sync_logs], with the id of the batch, the outcome, the number
    of records (0 when the batch failed) and the time the call took up to
    the update; a call that finds a dispatch in progress or nothing to
    send appends none. *)
Theorem dispatch_logged_once (cfg : config) (sch : schedule) (s : state) :
  let s' := snd (performSync cfg sch s) in
  let sel := getPendingRecords cfg (batchSize cfg) s in
  let ok := accepted cfg (at_replied sch) (envelope cfg sch s) in
  (syncInProgress s = true \/ sel = [] ->
   Db.sync_logs (syncDb s') = Db.sync_logs (syncDb s)) /\
  (syncInProgress s = false -> sel <> [] ->
   exists row,
     Db.sync_logs (syncDb s') = Db.sync_logs (syncDb s) ++ [row] /\
     Db.log_id row = Db.sync_logs_seq (syncDb s) + 1 /\
     Db.batch_id row = batchId (envelope cfg sch s) /\
     Db.success row = (if ok then 1 else 0) /\
     Db.records_synced row =
       (if ok then Z.of_nat (List.length sel) else 0) /\
     Db.sync_duration row = now (at_updated sch) - now (at_call sch)).
Proof.
  intros s' sel ok. split.
  - intros [Hflag|Hnil]; subst s'.
    + unfold performSync. now rewrite Hflag.
    + destruct (syncInProgress s) eqn:Hflag.
      * unfold performSync. now rewrite Hflag.
      * now rewrite performSync_idle.
  - intros Hflag Hsel. subst s' ok.
    rewrite (performSync_dispatch cfg sch s Hflag Hsel). cbv zeta.
    unfold accepted.
    destruct (post cfg (at_replied sch) (envelope cfg sch s)) as [res|f].
    + destruct (JS.truthy (field "success" res));
        eexists; cbn [snd syncDb Db.insert_sync_log Db.sync_logs
                      Db.update_synced Db.update_failed Db.with_queue
                      Db.sync_logs_seq];
        (split; [reflexivity|]); repeat split.
    + eexists; cbn [snd syncDb Db.insert_sync_log Db.sync_logs
                    Db.update_failed Db.with_queue Db.sync_logs_seq];
        (split; [reflexivity|]); repeat split.
Qed.

Lemma dispatch_logged_once_witness :
  let sch := throughout (failing (at_time 6)) in
  syncInProgress five_pending = false /\
  getPendingRecords pairs (batchSize pairs) five_pending <> [] /\
  exists row,
    Db.sync_logs (syncDb (snd (performSync pairs sch five_pending))) =
      Db.sync_logs (syncDb five_pending) ++ [row] /\
    Db.batch_id row = "batch_6000" /\
    Db.success row = 0 /\
    Db.records_synced row = 0.
Proof.
  intros sch. split; [reflexivity|]. split; [discriminate|].
  destruct (proj2 (dispatch_logged_once pairs sch five_pending))
    as (row & Hlog & _ & Hb & Hs & Hn & _).
  - reflexivity.
  - discriminate.
  - exists row. split; [exact Hlog|]. split; [exact Hb|].
    split; [exact Hs | exact Hn].
Defined.

(** ** What is selected and what is left *)

Lemma StronglySorted_app_le (l l' : list Db.queue_row) :
  StronglySorted by_created_at (l ++ l') ->
  forall a b, In a l -> In b l' -> Db.created_at a <= Db.created_at b.
Proof.
  induction l as [|x l IH]; simpl; intros H a b Ha Hb; [tauto|].
  inversion H as [|? ? Hs Hx]; subst. destruct Ha as [->|Ha].
  - rewrite Forall_forall in Hx. apply Hx, in_or_app. now right.
  - now apply (IH Hs).
Qed.

Lemma NoDup_map_injective {A B : Type} (f : A -> B) (l : list A) (x y : A) :
  NoDup (map f l) -> In x l -> In y l -> f x = f y -> x = y.
Proof.
  induction l as [|z l IH]; simpl; intros H Hx Hy E; [tauto|].
  inversion H as [|? ? Hz Hl]; subst.
  destruct Hx as [->|Hx], Hy as [->|Hy]; trivial.
  - exfalso. apply Hz. rewrite E. now apply in_map.
  - exfalso. apply Hz. rewrite <- E. now apply in_map.
  - now apply IH.
Qed.

(** With unique ids, the rows the two [UPDATE]s touch are the rows that
    were selected. *)
Lemma touched_rows (m n : Z) (d : Db.database) :
  NoDup (map Db.id (Db.sync_queue d)) ->
  Permutation
    (filter (Db.id_in (map Db.id (Db.select_pending m n d))) (Db.sync_queue d))
    (Db.select_pending m n d).
Proof.
  intros Hnd. set (sel := Db.select_pending m n d).
  assert (Hq : NoDup (Db.sync_queue d)) by now apply NoDup_map_inv in Hnd.
  assert (Hsel : NoDup sel).
  { unfold sel, Db.select_pending.
    destruct (DbFacts.limit_prefix n
                (Db.order_by_created_at
                   (filter (Db.selectable m) (Db.sync_queue d))))
      as [rest E].
    assert (Hs : NoDup (Db.order_by_created_at
                          (filter (Db.selectable m) (Db.sync_queue d)))).
    { eapply Permutation_NoDup;
        [apply Permutation_sym, DbFacts.order_by_created_at_perm|].
      now apply NoDup_filter. }
    rewrite E in Hs. now apply NoDup_app_remove_r in Hs. }
  apply NoDup_Permutation; [now apply NoDup_filter | exact Hsel |].
  intros x. rewrite filter_In, DbFacts.id_in_spec. split.
  - intros [Hx Hid]. apply in_map_iff in Hid. destruct Hid as [y [E Hy]].
    assert (Hyq : In y (Db.sync_queue d))
      by now apply DbFacts.select_pending_In in Hy.
    now rewrite <- (NoDup_map_injective Db.id _ y x Hnd Hyq Hx E).
  - intros Hx. split; [now apply DbFacts.select_pending_In in Hx|].
    now apply in_map.
Qed.

(** X3. The batch takes the oldest records first: what it leaves behind
    is no older (by [created_at]) than anything it takes, and it leaves
    something behind only when it is full.  So a backlog that fits into
    one batch is selected whole. *)
Theorem selection_oldest_first (cfg : config) (s : state) :
  let sel := getPendingRecords cfg (batchSize cfg) s in
  exists rest,
    Permutation (sel ++ rest) (eligible cfg s) /\
    (forall a b, In a sel -> In b rest ->
                 Db.created_at a <= Db.created_at b) /\
    (rest <> [] -> List.length sel = Z.to_nat (batchSize cfg)) /\
    (0 <= batchSize cfg ->
     (List.length (eligible cfg s) <= Z.to_nat (batchSize cfg))%nat ->
     rest = []).
Proof.
  intros sel.
  pose proof (DbFacts.order_by_created_at_perm (eligible cfg s)) as Hperm.
  pose proof (DbFacts.order_by_created_at_sorted (eligible cfg s)) as Hsorted.
  destruct (DbFacts.limit_prefix (batchSize cfg)
              (Db.order_by_created_at (eligible cfg s))) as [rest E].
  change (Db.limit (batchSize cfg) (Db.order_by_created_at (eligible cfg s)))
    with sel in E.
  assert (Hlen : (List.length sel + List.length rest =
                  List.length (eligible cfg s))%nat).
  { rewrite <- length_app, <- E. now apply Permutation_length. }
  assert (Hfull : rest <> [] -> List.length sel = Z.to_nat (batchSize cfg)).
  { intros Hrest. unfold sel, getPendingRecords, Db.select_pending, Db.limit.
    fold (queue s). fold (eligible cfg s).
    destruct (batchSize cfg <? 0) eqn:Hneg.
    - exfalso. apply Hrest.
      unfold sel, getPendingRecords, Db.select_pending, Db.limit in E.
      fold (queue s) in E. fold (eligible cfg s) in E. rewrite Hneg in E.
      rewrite <- (app_nil_r (Db.order_by_created_at (eligible cfg s)))
        in E at 1.
      now apply app_inv_head in E.
    - rewrite length_firstn, (Permutation_length Hperm).
      destruct rest; [congruence|]. simpl in Hlen.
      assert (Hs : (List.length sel <= Z.to_nat (batchSize cfg))%nat).
      { unfold sel, getPendingRecords, Db.select_pending, Db.limit.
        rewrite Hneg. apply firstn_le_length. }
      assert (Hm : List.length sel =
                   Nat.min (Z.to_nat (batchSize cfg))
                     (List.length (eligible cfg s))).
      { unfold sel. apply getPendingRecords_length.
        apply Z.ltb_ge in Hneg. exact Hneg. }
      lia. }
  exists rest. split; [|split; [|split]].
  - rewrite <- E. exact Hperm.
  - apply StronglySorted_app_le. now rewrite <- E.
  - exact Hfull.
  - intros Hb Hfit. destruct rest as [|r rest]; [reflexivity|].
    assert (Hr : r :: rest <> []) by discriminate.
    specialize (Hfull Hr). simpl in Hlen. lia.
Qed.

Lemma selection_oldest_first_witness :
  exists rest,
    Permutation
      (getPendingRecords CLOUD_CONFIG (batchSize CLOUD_CONFIG) five_pending
         ++ rest)
      (eligible CLOUD_CONFIG five_pending) /\
    rest = [].
Proof.
  destruct (selection_oldest_first CLOUD_CONFIG five_pending)
    as (rest & Hperm & _ & _ & Hfit).
  exists rest. split; [exact Hperm|].
  apply Hfit; [simpl; lia | vm_compute; lia].
Defined.

(** ** Draining the backlog *)

Lemma eligible_nil_idle (cfg : config) (sch : schedule) (s : state) :
  syncInProgress s = false ->
  eligible cfg s = [] ->
  performSync cfg sch s = (no_data, s).
Proof.
  intros Hflag Hnone. apply performSync_idle; [exact Hflag|].
  unfold getPendingRecords, Db.select_pending.
  unfold eligible, queue in Hnone. rewrite Hnone. simpl.
  unfold Db.limit. destruct (batchSize cfg <? 0); [reflexivity|].
  apply firstn_nil.
Qed.

(** X4. As long as the transport accepts the batches, each call of
    [performSync] takes [batchSize] records off the backlog, or all of it
    when less is left; after enough calls nothing is left to select. *)
Theorem backlog_drains (cfg : config) (schs : list schedule) (s : state) :
  syncInProgress s = false ->
  0 < batchSize cfg ->
  NoDup (map Db.id (queue s)) ->
  (forall sch b, In sch schs -> accepted cfg (at_replied sch) b = true) ->
  let s' := dispatches cfg schs s in
  syncInProgress s' = false /\
  List.length (eligible cfg s') =
    (List.length (eligible cfg s) -
     List.length schs * Z.to_nat (batchSize cfg))%nat /\
  ((List.length (eligible cfg s) <=
    List.length schs * Z.to_nat (batchSize cfg))%nat ->
   getPendingRecords cfg (batchSize cfg) s' = []).
Proof.
  intros Hflag Hpos Hnd Hok s'. subst s'.
  assert (H : syncInProgress (dispatches cfg schs s) = false /\
              List.length (eligible cfg (dispatches cfg schs s)) =
              (List.length (eligible cfg s) -
               List.length schs * Z.to_nat (batchSize cfg))%nat).
  { revert s Hflag Hnd Hok.
    induction schs as [|sch schs IH]; intros s Hflag Hnd Hok.
    - simpl. split; [exact Hflag | lia].
    - simpl dispatches. unfold dispatches. simpl fold_left.
      fold (dispatches cfg schs (snd (performSync cfg sch s))).
      destruct (eligible cfg s) as [|r0 rest0] eqn:He.
      + rewrite (eligible_nil_idle cfg sch s Hflag He). simpl snd.
        destruct (IH s Hflag Hnd) as [Hf Hl].
        { intros sch' b Hin. apply Hok. now right. }
        split; [exact Hf|]. rewrite Hl, He. simpl. lia.
      + destruct (performSync_accepted cfg sch s Hflag Hpos Hnd)
          as (Hflag1 & Hnd1 & Hlen1 & _).
        { rewrite He. discriminate. }
        { apply Hok. now left. }
        destruct (IH _ Hflag1 Hnd1) as [Hf Hl].
        { intros sch' b Hin. apply Hok. now right. }
        split; [exact Hf|]. rewrite Hl, Hlen1, He.
        simpl List.length. nia. }
  destruct H as [Hf Hl]. split; [exact Hf|]. split; [exact Hl|].
  intros Henough.
  assert (Hnone : eligible cfg (dispatches cfg schs s) = []).
  { destruct (eligible cfg (dispatches cfg schs s)); [reflexivity|].
    simpl in Hl. lia. }
  unfold getPendingRecords, Db.select_pending.
  unfold eligible, queue in Hnone. rewrite Hnone. simpl.
  unfold Db.limit. destruct (batchSize cfg <? 0); [reflexivity|].
  apply firstn_nil.
Qed.

Lemma backlog_drains_witness :
  let schs := [throughout (at_time 6); throughout (at_time 7);
               throughout (at_time 8)] in
  List.length (eligible pairs five_pending) = 5%nat /\
  List.length (eligible pairs (dispatches pairs schs five_pending)) = 0%nat /\
  getPendingRecords pairs (batchSize pairs)
    (dispatches pairs schs five_pending) = [].
Proof.
  intros schs. split; [reflexivity|].
  destruct (backlog_drains pairs schs five_pending) as (_ & Hl & Hnone).
  - reflexivity.
  - reflexivity.
  - simpl. repeat constructor; simpl; intuition discriminate.
  - intros sch b [<-|[<-|[<-|[]]]]; reflexivity.
  - split; [exact Hl|]. apply Hnone. vm_compute. lia.
Defined.

(** ** The counters of [getSyncStats] *)

Lemma counts_add_up (q : list Db.queue_row) :
  Z.of_nat (List.length q) =
  count_status Db.synced q + count_status Db.pending q +
  count_status Db.failed q.
Proof.
  unfold count_status. induction q as [|r q IH]; [reflexivity|].
  cbn [filter List.length].
  destruct (Db.sync_status r); cbn [Db.status_eqb List.length]; lia.
Qed.

Lemma counts_after_update (to : Db.status) (f : Db.queue_row -> Db.queue_row)
    (ids : list Z) (q : list Db.queue_row) (st : Db.status) :
  (forall r, Db.sync_status (f r) = to) ->
  to <> Db.pending ->
  (forall r, In r q -> Db.id_in ids r = true ->
             Db.sync_status r = Db.pending) ->
  count_status st (map (fun r => if Db.id_in ids r then f r else r) q) =
  count_status st q +
  (if Db.status_eqb st to then 1
   else if Db.status_eqb st Db.pending then -1 else 0) *
  Z.of_nat (List.length (filter (Db.id_in ids) q)).
Proof.
  intros Hto Hne Hpend. unfold count_status.
  induction q as [|r q IH]; [simpl; lia|].
  assert (IH' := IH (fun r' Hr' => Hpend r' (or_intror Hr'))). clear IH.
  cbn [map filter]. destruct (Db.id_in ids r) eqn:Hin.
  - rewrite Hto, (Hpend r (or_introl eq_refl) Hin).
    destruct st, to; cbn [Db.status_eqb List.length] in *;
      try congruence; lia.
  - destruct (Db.status_eqb (Db.sync_status r) st); cbn [List.length]; lia.
Qed.

(** X5. The counters of [getSyncStats] add up to the total; a queued
    event adds one pending record; a batch of [n] records moves [n]
    records from pending to synced when it is accepted and from pending
    to failed when it is not. *)
Theorem stats_follow_the_queue (cfg : config) :
  (forall s : state,
     total_events (getSyncStats s) =
     synced_events (getSyncStats s) + pending_events (getSyncStats s) +
     failed_events (getSyncStats s)) /\
  (forall (e : env) (data : JS.value) (s : state) (lastID : Z),
     fst (addToSyncQueue e data s) = inr lastID ->
     let after := getSyncStats (snd (addToSyncQueue e data s)) in
     total_events after = total_events (getSyncStats s) + 1 /\
     pending_events after = pending_events (getSyncStats s) + 1 /\
     synced_events after = synced_events (getSyncStats s) /\
     failed_events after = failed_events (getSyncStats s)) /\
  (forall (sch : schedule) (s : state),
     syncInProgress s = false ->
     getPendingRecords cfg (batchSize cfg) s <> [] ->
     NoDup (map Db.id (queue s)) ->
     let n :=
       Z.of_nat (List.length (getPendingRecords cfg (batchSize cfg) s)) in
     let after := getSyncStats (snd (performSync cfg sch s)) in
     total_events after = total_events (getSyncStats s) /\
     pending_events after = pending_events (getSyncStats s) - n /\
     if accepted cfg (at_replied sch) (envelope cfg sch s)
     then synced_events after = synced_events (getSyncStats s) + n /\
          failed_events after = failed_events (getSyncStats s)
     else synced_events after = synced_events (getSyncStats s) /\
          failed_events after = failed_events (getSyncStats s) + n).
Proof.
  split; [|split].
  - intros s. apply counts_add_up.
  - intros e data s lastID. unfold addToSyncQueue.
    destruct (JS.JSON_stringify data);
      try (destruct (JS.get data "userId"), (JS.get data "type"));
      simpl; intros H; try discriminate;
      unfold count_status; rewrite !filter_app, !length_app; simpl;
      repeat split; lia.
  - intros sch s Hflag Hsel Hnd n after.
    assert (Hpend : forall r, In r (queue s) ->
              Db.id_in (map Db.id (getPendingRecords cfg (batchSize cfg) s)) r
                = true ->
              Db.sync_status r = Db.pending).
    { intros r Hr Hin.
      assert (Hf : In r (filter
                (Db.id_in (map Db.id (getPendingRecords cfg (batchSize cfg) s)))
                (queue s))) by (apply filter_In; now split).
      apply (Permutation_in _ (touched_rows _ _ _ Hnd)) in Hf.
      now apply DbFacts.select_pending_In in Hf. }
    assert (Hn : Z.of_nat (List.length (filter
                (Db.id_in (map Db.id (getPendingRecords cfg (batchSize cfg) s)))
                (queue s))) = n).
    { subst n. f_equal. apply Permutation_length.
      apply touched_rows. exact Hnd. }
    subst after. rewrite (performSync_dispatch cfg sch s Hflag Hsel).
    cbv zeta. unfold accepted.
    assert (Hsynced : forall st,
      count_status st
        (Db.sync_queue (Db.update_synced
           (map Db.id (getPendingRecords cfg (batchSize cfg) s)) (syncDb s))) =
      count_status st (queue s) +
      (if Db.status_eqb st Db.synced then 1
       else if Db.status_eqb st Db.pending then -1 else 0) * n).
    { intros st. rewrite <- Hn. simpl.
      apply (counts_after_update Db.synced (Db.set_status Db.synced));
        [reflexivity | discriminate | exact Hpend]. }
    assert (Hfailed : forall st,
      count_status st
        (Db.sync_queue (Db.update_failed
           (map Db.id (getPendingRecords cfg (batchSize cfg) s)) (syncDb s))) =
      count_status st (queue s) +
      (if Db.status_eqb st Db.failed then 1
       else if Db.status_eqb st Db.pending then -1 else 0) * n).
    { intros st. rewrite <- Hn. simpl.
      apply (counts_after_update Db.failed
               (fun r => Db.set_status Db.failed (Db.bump_retry r)));
        [reflexivity | discriminate | exact Hpend]. }
    assert (Htotal_s : List.length (Db.sync_queue (Db.update_synced
           (map Db.id (getPendingRecords cfg (batchSize cfg) s)) (syncDb s))) =
           List.length (queue s)) by (simpl; apply length_map).
    assert (Htotal_f : List.length (Db.sync_queue (Db.update_failed
           (map Db.id (getPendingRecords cfg (batchSize cfg) s)) (syncDb s))) =
           List.length (queue s)) by (simpl; apply length_map).
    destruct (post cfg (at_replied sch) (envelope cfg sch s)) as [res|f];
      [destruct (JS.truthy (field "success" res))|];
      unfold getSyncStats;
      cbn [snd syncDb Db.insert_sync_log Db.sync_queue total_events
           pending_events synced_events failed_events];
      fold (queue s);
      rewrite ?Htotal_s, ?Htotal_f, ?Hsynced, ?Hfailed;
      cbn [Db.status_eqb]; clearbody n; repeat split; lia.
Qed.

Lemma stats_follow_the_queue_witness :
  let sch := throughout (at_time 6) in
  getSyncStats five_pending =
    {| total_events := 5; synced_events := 0; pending_events := 5;
       failed_events := 0 |} /\
  getSyncStats (snd (performSync pairs sch five_pending)) =
    {| total_events := 5; synced_events := 2; pending_events := 3;
       failed_events := 0 |} /\
  pending_events (getSyncStats (snd (performSync pairs sch five_pending))) =
    pending_events (getSyncStats five_pending) - 2.
Proof.
  intros sch. split; [reflexivity|]. split; [reflexivity|].
  destruct (proj2 (proj2 (stats_follow_the_queue pairs)) sch five_pending)
    as (_ & Hp & _).
  - reflexivity.
  - discriminate.
  - simpl. repeat constructor; simpl; intuition discriminate.
  - exact Hp.
Defined.

(** ** The scheduler and the exported operations *)

(** X6. A tick of the scheduler does nothing while the manager is
    offline, and nothing before [syncInterval] has passed since the end
    of the last dispatch; otherwise it is a call of [performSync].  So
    after a dispatch that sent a batch, the ticks of the next
    [syncInterval] milliseconds change nothing, and after one whose send
    failed no tick changes anything while [isOnline] stays [false]. *)
Theorem ticks_are_throttled (cfg : config) :
  (forall (sch : schedule) (s : state),
     isOnline s = false -> performScheduledSync cfg sch s = s) /\
  (forall (sch : schedule) (s : state),
     now (at_call sch) - lastSyncTime s < syncInterval cfg ->
     performScheduledSync cfg sch s = s) /\
  (forall (sch : schedule) (s : state),
     isOnline s = true ->
     syncInterval cfg <= now (at_call sch) - lastSyncTime s ->
     performScheduledSync cfg sch s = snd (performSync cfg sch s)) /\
  (forall (sch tick : schedule) (s : state),
     syncInProgress s = false ->
     getPendingRecords cfg (batchSize cfg) s <> [] ->
     let s' := snd (performSync cfg sch s) in
     (now (at_call tick) - now (at_logged sch) < syncInterval cfg ->
      performScheduledSync cfg tick s' = s') /\
     (isOnline s = false \/
      (exists f, post cfg (at_replied sch) (envelope cfg sch s) = inr f) ->
      performScheduledSync cfg tick s' = s')).
Proof.
  assert (Hoff : forall sch s,
            isOnline s = false -> performScheduledSync cfg sch s = s).
  { intros sch s H. unfold performScheduledSync. now rewrite H. }
  assert (Hsoon : forall sch s,
            now (at_call sch) - lastSyncTime s < syncInterval cfg ->
            performScheduledSync cfg sch s = s).
  { intros sch s H. unfold performScheduledSync.
    destruct (negb (isOnline s)); [reflexivity|].
    destruct (now (at_call sch) - lastSyncTime s >=? syncInterval cfg)
      eqn:E; [|reflexivity].
    apply Z.geb_le in E. lia. }
  split; [exact Hoff|]. split; [exact Hsoon|]. split.
  - intros sch s Hon Hlate. unfold performScheduledSync. rewrite Hon. simpl.
    destruct (now (at_call sch) - lastSyncTime s >=? syncInterval cfg)
      eqn:E; [reflexivity|].
    rewrite Z.geb_leb in E. apply Z.leb_gt in E. lia.
  - intros sch tick s Hflag Hsel s'. split.
    + intros Hnear. apply Hsoon. subst s'.
      rewrite (performSync_dispatch cfg sch s Hflag Hsel). cbv zeta.
      now destruct (post cfg (at_replied sch) (envelope cfg sch s)).
    + intros Hcause. apply Hoff. subst s'.
      rewrite (performSync_dispatch cfg sch s Hflag Hsel). cbv zeta.
      destruct Hcause as [Hwas|[f Hf]].
      * now destruct (post cfg (at_replied sch) (envelope cfg sch s)).
      * now rewrite Hf.
Qed.

Lemma ticks_are_throttled_witness :
  let sch := throughout (at_time 11) in
  let tick := throughout (at_time 12) in
  let s' := snd (performSync CLOUD_CONFIG sch one_pending) in
  now (at_call tick) - now (at_logged sch) < syncInterval CLOUD_CONFIG /\
  performScheduledSync CLOUD_CONFIG tick s' = s' /\
  isOnline failed_once = false /\
  performScheduledSync CLOUD_CONFIG (throughout (at_time 30)) failed_once =
    failed_once.
Proof.
  intros sch tick s'. split; [simpl; lia|]. split.
  - destruct (proj2 (proj2 (proj2 (ticks_are_throttled CLOUD_CONFIG)))
                sch tick one_pending eq_refl) as [Hnear _]; [discriminate|].
    apply Hnear. simpl; lia.
  - split; [reflexivity|].
    apply (proj1 (ticks_are_throttled CLOUD_CONFIG)). reflexivity.
Defined.

(** X7. Nothing is handed to the transport while the manager is
    offline.  In every run of the program through its exported
    operations, when [isOnline] is false no step, of whatever operation
    or invocation, gives an envelope to [sendToCloud]: a tick and the
    guard of [syncData] start nothing, and no invocation of
    [performSync] is still before its send. *)
Theorem nothing_sent_while_offline
    (cfg : config) (d : Db.database) (sts : list step) (st : step) :
  let sys := execute cfg sts (boot d) in
  isOnline (shared sys) = false ->
  sent (shared (perform cfg st sys)) = sent (shared sys) /\
  (forall e, perform cfg (Tick e) sys = sys) /\
  (forall e, perform cfg (Kick e) sys = sys) /\
  (forall x, In x (tasks sys) -> expects_online x = false).
Proof.
  intros sys Hoff.
  destruct (execute_attentive cfg sts (boot d) (boot_exclusive d)
              (boot_attentive d)) as [Hex Hat].
  fold sys in Hex, Hat.
  assert (Hnone : forall x, In x (tasks sys) -> expects_online x = false).
  { intros x Hx. destruct (expects_online x) eqn:E; [|reflexivity].
    rewrite (Hat x Hx E) in Hoff. discriminate. }
  assert (Htick : forall e, perform cfg (Tick e) sys = sys)
    by (intros e; cbn [perform]; now rewrite Hoff).
  assert (Hkick : forall e, perform cfg (Kick e) sys = sys)
    by (intros e; cbn [perform]; now rewrite Hoff).
  split; [|repeat split; assumption].
  destruct st as [e|e data|e data|e|i e|].
  - now rewrite Htick.
  - cbn [perform shared]. now destruct (logActivity_keeps e data (shared sys))
      as (_ & _ & _ & _ & Hs & _).
  - cbn [perform fire shared].
    destruct (addToSyncQueue_effect e data (shared sys))
      as [[msg E]|(row & s' & E & _ & _ & _ & _ & _ & _ & _ & _ & _ & _ & _
                   & Hs)]; rewrite E; cbn [snd]; [reflexivity | exact Hs].
  - now rewrite Hkick.
  - cbn [perform fire].
    destruct (nth_error (tasks sys) i) as [x|] eqn:Hnth; [|reflexivity].
    pose proof (Hnone x (nth_error_In _ _ Hnth)) as Hx.
    destruct x as [b t|b t sel env|b t sel res|b t sel res|b n ok msg dur res
                  |res]; try discriminate; reflexivity.
  - cbn [perform fire]. now destruct (timers (shared sys)).
Qed.

Lemma nothing_sent_while_offline_witness :
  let sts := [Queued (at_time 1) launch; Kick (at_time 1);
              Resumed 0 (at_time 2); Resumed 0 (failing (at_time 2));
              Queued (at_time 3) launch] in
  let sys := execute CLOUD_CONFIG sts (boot Db.empty) in
  isOnline (shared sys) = false /\
  map Db.sync_status (queue (shared sys)) = [Db.pending; Db.pending] /\
  sent (shared (perform CLOUD_CONFIG (Resumed 0 (at_time 4)) sys)) =
    sent (shared sys) /\
  perform CLOUD_CONFIG (Kick (at_time 4)) sys = sys.
Proof.
  intros sts sys. split; [reflexivity|]. split; [reflexivity|].
  destruct (nothing_sent_while_offline CLOUD_CONFIG Db.empty sts
              (Resumed 0 (at_time 4)) eq_refl) as (Hs & _ & Hk & _).
  split; [exact Hs | apply Hk].
Defined.

(** X8. What [syncData] reports is decided by the enqueue alone: it is
    the same whatever happens to the dispatch it triggers, it is a
    success exactly when [addToSyncQueue] has written the row, and the
    rows of the queue are then the same ones, whatever their status. *)
Theorem enqueue_report_ignores_transport
    (cfg : config) (e : env) (sch sch' : schedule) (data : JS.value)
    (s : state) :
  fst (syncData cfg e sch data s) = fst (syncData cfg e sch' data s) /\
  map origin (queue (snd (syncData cfg e sch data s))) =
    map origin (queue (snd (syncData cfg e sch' data s))) /\
  (field "success" (fst (syncData cfg e sch data s)) = JS.Bool true <->
   exists lastID, fst (addToSyncQueue e data s) = inr lastID) /\
  (field "success" (fst (syncData cfg e sch data s)) = JS.Bool false <->
   exists msg, fst (addToSyncQueue e data s) = inl msg).
Proof.
  unfold syncData.
  destruct (addToSyncQueue e data s) as [[msg|lastID] s1]; cbn [fst snd].
  - split; [reflexivity|]. split; [reflexivity|]. split; split.
    + discriminate.
    + intros [x Hx]. discriminate.
    + eauto.
    + reflexivity.
  - split; [reflexivity|]. split.
    + destruct (isOnline s1 && negb (syncInProgress s1));
        now rewrite ?performSync_origin.
    + split; split.
      * eauto.
      * reflexivity.
      * discriminate.
      * intros [x Hx]. discriminate.
Qed.

(** X9. [logEvent] writes both of its rows or none: either it reports
    success, and [user_activity] and [sync_queue] have one more row each,
    with the same owner, kind and document; or it reports a failure and
    the state is as it was. *)
Theorem logEvent_all_or_nothing (e e' : env) (data : JS.value) (s : state) :
  let r := logEvent e e' data s in
  (fst r = [("success", JS.Bool true)] /\
   exists a q,
     Db.user_activity (syncDb (snd r)) = Db.user_activity (syncDb s) ++ [a] /\
     queue (snd r) = queue s ++ [q] /\
     Db.activity_user_id a = Db.user_id q /\
     Db.activity_type a = Db.event_type q /\
     Db.details a = Db.data q /\
     Db.sync_status q = Db.pending /\
     sent (snd r) = sent s) \/
  (field "success" (fst r) = JS.Bool false /\ snd r = s).
Proof.
  unfold logEvent, addToSyncQueue.
  destruct (JS.get data "userId") as [u|]; [|right; split; reflexivity].
  destruct (JS.get data "type") as [t|]; [|right; split; reflexivity].
  destruct (JS.get data "timestamp") as [ts|]; [|right; split; reflexivity].
  destruct (JS.JSON_stringify data) as [| |doc];
    [right; split; reflexivity| |];
    left; (split; [reflexivity|]); eexists; eexists; unfold queue; simpl;
    repeat split.
Qed.

(** ** The reply of the endpoint *)

Lemma field_set_prop (k k' : string) (v : JS.value) (props : result) :
  field k (JS.set_prop k' v props) =
  if (k =? k')%string then v else field k props.
Proof.
  unfold field. induction props as [|[k0 v0] props IH]; simpl.
  - now destruct (k =? k')%string.
  - destruct (k' =? k0)%string eqn:E0; simpl.
    + apply String.eqb_eq in E0. subst k0.
      destruct (k =? k')%string; reflexivity.
    + destruct (k =? k0)%string eqn:E1.
      * apply String.eqb_eq in E1. subst k0.
        rewrite String.eqb_sym in E0. now rewrite E0.
      * exact IH.
Qed.

Lemma assoc_app {A : Type} (k : string) (l l' : list (string * A)) :
  JS.assoc k (l ++ l') =
  match JS.assoc k l with Some v => Some v | None => JS.assoc k l' end.
Proof.
  induction l as [|[k0 v0] l IH]; simpl; [reflexivity|].
  now destruct (k =? k0)%string.
Qed.

(** In [{ ...a, ...b }] a property of [b] hides the one of [a], and of
    two properties of [b] the later one counts. *)
Lemma field_spread (k : string) (a b : result) :
  field k (JS.spread a b) =
  match JS.assoc k (rev b) with Some v => v | None => field k a end.
Proof.
  unfold JS.spread. revert a.
  induction b as [|[k0 v0] b IH]; intros a; simpl; [reflexivity|].
  rewrite IH, assoc_app, field_set_prop. simpl.
  destruct (JS.assoc k (rev b)); [reflexivity|].
  now destruct (k =? k0)%string.
Qed.

(** X10. With an API key, a reply of the endpoint counts as a success
    unless its body carries a [success] property that is not truthy.  A
    reply with such a body marks the batch failed, as an error does, but
    it does not trip the breaker and sets no timer. *)
Theorem reply_body_can_refuse
    (cfg : config) (sch : schedule) (s : state) (body : result) :
  (apiKey cfg =? "demo_api_key")%string = false ->
  axios_post (at_replied sch) = Resolved body ->
  let ok :=
    match JS.assoc "success" (rev body) with
    | Some v => JS.truthy v
    | None => true
    end in
  accepted cfg (at_replied sch) (envelope cfg sch s) = ok /\
  (syncInProgress s = false ->
   getPendingRecords cfg (batchSize cfg) s <> [] ->
   ok = false ->
   let s' := snd (performSync cfg sch s) in
   queue s' =
     map (fun r =>
            if Db.id_in (map rec_id (records (envelope cfg sch s))) r
            then mark_failed r else r) (queue s) /\
   isOnline s' = isOnline s /\
   timers s' = timers s).
Proof.
  intros Hkey Hreply ok.
  assert (Hpost : post cfg (at_replied sch) (envelope cfg sch s) =
                  inl (JS.spread [("success", JS.Bool true)] body)).
  { unfold post. now rewrite Hkey, Hreply. }
  assert (Hacc : accepted cfg (at_replied sch) (envelope cfg sch s) = ok).
  { unfold accepted. rewrite Hpost, field_spread. subst ok.
    now destruct (JS.assoc "success" (rev body)). }
  split; [exact Hacc|].
  intros Hflag Hsel Hko s'. split.
  - apply performSync_unsuccessful; trivial. now rewrite Hacc.
  - subst s'. rewrite (performSync_dispatch cfg sch s Hflag Hsel).
    cbv zeta. rewrite Hpost. split; reflexivity.
Qed.

Lemma reply_body_can_refuse_witness :
  let body := [("success", JS.Bool false); ("message", JS.Str "quota")] in
  let sch := throughout {|
    now := 11000; current_timestamp := 11; random_below_005 := false;
    axios_post := Resolved body |} in
  accepted live (at_replied sch) (envelope live sch one_pending) = false /\
  map Db.sync_status (queue (snd (performSync live sch one_pending))) =
    [Db.failed] /\
  isOnline (snd (performSync live sch one_pending)) = isOnline one_pending /\
  timers (snd (performSync live sch one_pending)) = timers one_pending.
Proof.
  intros body sch.
  destruct (reply_body_can_refuse live sch one_pending body eq_refl eq_refl)
    as [Hacc Hrun].
  split; [exact Hacc|]. split; [reflexivity|].
  destruct Hrun as (_ & Hon & Htimers);
    [reflexivity | discriminate | reflexivity |].
  split; [exact Hon | exact Htimers].
Defined.

(** ** The document of an event *)





(** ** What the events of a run do to the queue *)

Section RunFacts.

Variable cfg : config.

(** The three things a segment of an invocation can do. *)
Lemma resume_cases (e : env) (st : stage) (s : state) :
  let st' := fst (resume cfg e st s) in
  let s' := snd (resume cfg e st s) in
  Db.sync_queue_seq (syncDb s') = Db.sync_queue_seq (syncDb s) /\
  ((queue s' = queue s /\ sent s' = sent s /\ holds st' = holds st) \/
   (holds st = [] /\
    holds st' = getPendingRecords cfg (batchSize cfg) s /\
    queue s' = queue s /\
    exists b, sent s' = sent s ++ [b] /\
              map rec_id (records b) = map Db.id (holds st')) \/
   (holds st' = [] /\ sent s' = sent s /\
    exists f,
      (f = Db.set_status Db.synced \/ f = mark_failed) /\
      queue s' =
        map (fun r => if Db.id_in (map Db.id (holds st)) r then f r else r)
            (queue s))).
Proof.
  destruct st as [b t|b t sel env|b t sel res|b t sel res|b n ok msg dur res
                 |res];
    cbn [resume].
  - destruct (getPendingRecords cfg (batchSize cfg) s) as [|r0 sel] eqn:Hsel;
      cbn [List.length Nat.eqb fst snd].
    + split; [reflexivity|]. left. repeat split.
    + split; [reflexivity|]. right. left. unfold queue. cbn [holds].
      repeat split. eexists. split; [reflexivity|].
      cbn [records]. now rewrite map_map.
  - unfold sendToCloud_settle. destruct (post cfg e env) as [r|f].
    + destruct (JS.truthy (field "success" r)); cbn [fst snd];
        (split; [reflexivity|]); left; repeat split.
    + cbn [fst snd]. split; [reflexivity|].
      destruct (JS.truthy _); left; repeat split.
  - cbn [fst snd]. split; [reflexivity|]. right. right.
    repeat split. exists (Db.set_status Db.synced). split; [now left|].
    reflexivity.
  - cbn [fst snd]. split; [reflexivity|]. right. right.
    repeat split. exists mark_failed. split; [now right|]. reflexivity.
  - cbn [fst snd]. split; [reflexivity|]. left. repeat split.
  - cbn [fst snd]. split; [reflexivity|]. left. repeat split.
Qed.

Lemma evolves_refl (r : Db.queue_row) : evolves r r.
Proof. split; [reflexivity | lia]. Qed.

Lemma evolves_trans (a b c : Db.queue_row) :
  evolves a b -> evolves b c -> evolves a c.
Proof. intros [H1 H2] [H3 H4]. split; [congruence | lia]. Qed.

Lemma Forall2_evolves_refl (q : list Db.queue_row) : Forall2 evolves q q.
Proof. induction q; constructor; auto using evolves_refl. Qed.

Lemma Forall2_evolves_trans (a b c : list Db.queue_row) :
  Forall2 evolves a b -> Forall2 evolves b c -> Forall2 evolves a c.
Proof.
  intros H. revert c. induction H as [|x y a b Hxy _ IH]; intros c Hbc.
  - inversion Hbc. constructor.
  - inversion Hbc as [|? z ? c' Hyz Hbc']; subst.
    constructor; [now apply (evolves_trans x y z) | now apply IH].
Qed.

Lemma grows_refl (q : list Db.queue_row) : grows q q.
Proof.
  exists q, []. rewrite app_nil_r. split; [reflexivity|].
  apply Forall2_evolves_refl.
Qed.

Lemma grows_trans (a b c : list Db.queue_row) :
  grows a b -> grows b c -> grows a c.
Proof.
  intros (k1 & a1 & -> & H1) (k2 & a2 & -> & H2).
  apply Forall2_app_inv_l in H2.
  destruct H2 as (k21 & k22 & Hk21 & Hk22 & ->).
  exists k21, (k22 ++ a2). rewrite app_assoc. split; [reflexivity|].
  now apply (Forall2_evolves_trans a k1 k21).
Qed.

Lemma grows_update (f : Db.queue_row -> Db.queue_row) (ids : list Z)
    (q : list Db.queue_row) :
  f = Db.set_status Db.synced \/ f = mark_failed ->
  grows q (map (fun r => if Db.id_in ids r then f r else r) q).
Proof.
  intros Hf. exists (map (fun r => if Db.id_in ids r then f r else r) q), [].
  rewrite app_nil_r. split; [reflexivity|].
  apply Forall2_map_r. intros r.
  destruct (Db.id_in ids r); [|apply evolves_refl].
  destruct Hf as [-> | ->]; split; simpl; try reflexivity; lia.
Qed.

Lemma fire_grows (ev : event) (sys : system) :
  grows (queue (shared sys)) (queue (shared (fire cfg ev sys))).
Proof.
  destruct ev as [e|i e|e data|]; simpl.
  - unfold call. destruct (syncInProgress (shared sys)); apply grows_refl.
  - destruct (nth_error (tasks sys) i) as [st|]; [|apply grows_refl].
    pose proof (resume_cases e st (shared sys)) as H.
    destruct (resume cfg e st (shared sys)) as [st' s']. simpl in *.
    destruct H as [_ [(Hq & _)|[(_ & _ & Hq & _)|(_ & _ & f & Hf & Hq)]]];
      rewrite Hq; [apply grows_refl | apply grows_refl |].
    now apply grows_update.
  - destruct (addToSyncQueue_effect e data (shared sys))
      as [[msg E]|(row & s' & E & Hq & _)]; rewrite E; simpl.
    + apply grows_refl.
    + rewrite Hq. exists (queue (shared sys)), [row]. split; [reflexivity|].
      apply Forall2_evolves_refl.
  - destruct (timers (shared sys)); apply grows_refl.
Qed.

End RunFacts.

(** X12. In every run the queue only grows: no event removes or
    reorders a row or rewrites what a row got at its insert (id, owner,
    kind, document, timestamps), and the count of attempts of a row
    never goes down. *)
Theorem queue_only_grows (cfg : config) (evs : list event) (sys : system) :
  grows (queue (shared sys)) (queue (shared (run cfg evs sys))).
Proof.
  revert sys. induction evs as [|ev evs IH]; intros sys; simpl.
  - apply grows_refl.
  - eapply grows_trans; [apply (fire_grows cfg ev) | apply IH].
Qed.

(** ** The invariant of a run *)

Section InvariantFacts.

Variable cfg : config.

Lemma holds_idle (st : stage) : dispatching st = false -> holds st = [].
Proof. destruct st; simpl; intros H; try discriminate; reflexivity. Qed.

Lemma hand_idle (l : list stage) :
  filter dispatching l = [] -> hand l = [].
Proof.
  induction l as [|x l IH]; simpl; [reflexivity|].
  destruct (dispatching x) eqn:Hx; [discriminate|].
  intros H. unfold hand in *. simpl. now rewrite (holds_idle x Hx), IH.
Qed.

Lemma hand_app (l : list stage) (st : stage) :
  hand (l ++ [st]) = hand l ++ map Db.id (holds st).
Proof.
  unfold hand. rewrite map_app, concat_app. simpl. now rewrite app_nil_r.
Qed.

Lemma nth_error_in_flight (l : list stage) (i : nat) (st : stage) :
  nth_error l i = Some st -> dispatching st = true ->
  (1 <= List.length (filter dispatching l))%nat.
Proof.
  intros Hnth Hst.
  pose proof (replace_in_flight i st (Returned []) l Hnth) as H.
  rewrite Hst in H. simpl in H. lia.
Qed.

(** The one invocation in flight is the only one that holds rows. *)
Lemma hand_replace (l : list stage) (i : nat) (st : stage) :
  (List.length (filter dispatching l) <= 1)%nat ->
  nth_error l i = Some st -> dispatching st = true ->
  hand l = map Db.id (holds st) /\
  forall st', hand (replace i st' l) = map Db.id (holds st').
Proof.
  revert i. induction l as [|x l IH]; intros [|i] Hone Hnth Hst;
    simpl in Hnth; try discriminate.
  - injection Hnth as ->. simpl in Hone. rewrite Hst in Hone. simpl in Hone.
    assert (Hrest : filter dispatching l = [])
      by (destruct (filter dispatching l); [reflexivity | simpl in Hone; lia]).
    apply hand_idle in Hrest. unfold hand in *. simpl.
    split; [|intros st']; now rewrite Hrest, app_nil_r.
  - simpl in Hone. destruct (dispatching x) eqn:Hx.
    + pose proof (nth_error_in_flight l i st Hnth Hst). simpl in Hone. lia.
    + destruct (IH i Hone Hnth Hst) as [H1 H2].
      unfold hand in *. simpl. rewrite (holds_idle x Hx). simpl.
      split; [exact H1 | exact H2].
Qed.

Lemma sorted_ids_NoDup (l : list Z) : StronglySorted Z.lt l -> NoDup l.
Proof.
  induction 1 as [|x l _ IH Hx]; constructor; [|exact IH].
  intros Hin. rewrite Forall_forall in Hx. specialize (Hx x Hin). lia.
Qed.

Lemma well_formed_NoDup (d : Db.database) :
  well_formed d -> NoDup (map Db.id (Db.sync_queue d)).
Proof. intros [H _]. now apply sorted_ids_NoDup. Qed.

Lemma selection_ids_NoDup (s : state) :
  NoDup (map Db.id (queue s)) ->
  NoDup (map Db.id (getPendingRecords cfg (batchSize cfg) s)).
Proof.
  intros Hnd. unfold getPendingRecords, Db.select_pending.
  destruct (DbFacts.limit_prefix (batchSize cfg)
              (Db.order_by_created_at
                 (filter (Db.selectable (retryAttempts cfg))
                    (Db.sync_queue (syncDb s))))) as [rest E].
  assert (H : NoDup (map Db.id (Db.order_by_created_at
                 (filter (Db.selectable (retryAttempts cfg))
                    (Db.sync_queue (syncDb s)))))).
  { eapply Permutation_NoDup.
    - apply Permutation_map, Permutation_sym,
        DbFacts.order_by_created_at_perm.
    - now apply DbFacts.NoDup_map_filter. }
  rewrite E, map_app in H. now apply NoDup_app_remove_r in H.
Qed.

Lemma selected_row_pending (s : state) (r : Db.queue_row) :
  NoDup (map Db.id (queue s)) ->
  In r (queue s) ->
  In (Db.id r) (map Db.id (getPendingRecords cfg (batchSize cfg) s)) ->
  Db.sync_status r = Db.pending.
Proof.
  intros Hnd Hr Hin. apply in_map_iff in Hin. destruct Hin as (y & E & Hy).
  pose proof (getPendingRecords_In cfg _ _ _ Hy) as (Hyq & Hp & _).
  now rewrite <- (NoDup_map_injective Db.id _ y r Hnd Hyq Hr E).
Qed.

Lemma sent_ids_app (s : state) (b : sync_batch) (l : list sync_batch) :
  sent s = l ++ [b] ->
  sent_ids s =
  List.concat (map (fun b => map rec_id (records b)) l) ++
  map rec_id (records b).
Proof.
  intros E. unfold sent_ids. rewrite E, map_app, concat_app. simpl.
  now rewrite app_nil_r.
Qed.

Lemma fire_consistent (ev : event) (sys : system) :
  consistent sys -> consistent (fire cfg ev sys).
Proof.
  intros Hall. pose proof Hall as (Hwf & Hex & Hhand & Hnd & Hincl & Hsent).
  assert (Hex' := fire_exclusive cfg ev sys Hex).
  destruct ev as [e|i e|e data|].
  - (* a call *)
    unfold consistent, in_hand in *. cbn [fire] in *. unfold call in *.
    destruct (syncInProgress (shared sys)); cbn [shared tasks] in *;
      rewrite hand_app; cbn [holds map]; rewrite app_nil_r;
      (split; [exact Hwf|]); (split; [exact Hex'|]);
      (split; [exact Hhand|]); (split; [exact Hnd|]);
      (split; [exact Hincl | exact Hsent]).
  - (* an invocation is resumed *)
    cbn [fire] in *. destruct (nth_error (tasks sys) i) as [st|] eqn:Hnth;
      [|exact Hall].
    destruct (dispatching st) eqn:Hst.
    2:{ rewrite (resume_returned cfg e st _ Hst), (replace_same _ _ _ Hnth).
        destruct sys. exact Hall. }
    assert (Hone : (List.length (filter dispatching (tasks sys)) <= 1)%nat).
    { unfold exclusive, in_flight in Hex. rewrite Hex.
      destruct (syncInProgress (shared sys)); lia. }
    destruct (hand_replace (tasks sys) i st Hone Hnth Hst) as [Hh Hh'].
    pose proof (resume_cases cfg e st (shared sys)) as Hcases.
    destruct (resume cfg e st (shared sys)) as [st' s'].
    cbn [fst snd] in Hcases. destruct Hcases as [Hseq Hcases].
    unfold consistent, in_hand in *. cbn [shared tasks] in *.
    fold (hand (tasks sys)) in Hhand, Hsent.
    fold (hand (replace i st' (tasks sys))).
    rewrite Hh in Hhand, Hsent. rewrite Hh'.
    assert (Hndq := well_formed_NoDup _ Hwf). fold (queue (shared sys)) in Hndq.
    destruct Hcases as [(Hq & Hs & Hho)
                       |[(Hnone & Hsel & Hq & b & Hs & Hb)
                        |(Hnone & Hs & f & Hf & Hq)]].
    + (* nothing happens to the queue *)
      unfold sent_ids, well_formed in *. unfold queue in Hq.
      rewrite Hseq, Hq, Hs, Hho. repeat split; try tauto.
      * intros r Hr. unfold queue in *. rewrite Hq in Hr. auto.
      * unfold queue in *. now rewrite Hq.
      * intros r Hr. unfold queue in *. rewrite Hq in Hr. auto.
    + (* a selection is made and handed to the transport *)
      rewrite Hnone in Hhand, Hsent. simpl in Hsent.
      unfold well_formed in *. pose proof Hq as Hq0. unfold queue in Hq0.
      rewrite Hseq, Hq, Hq0. rewrite (sent_ids_app s' b _ Hs), Hb, Hsel.
      fold (sent_ids (shared sys)). fold (queue (shared sys)).
      fold (queue (shared sys)) in Hincl, Hsent.
      split; [exact Hwf|]. split; [exact Hex'|]. split; [|split; [|split]].
      * intros r Hr Hin. now apply (selected_row_pending (shared sys) r).
      * apply NoDup_app; [exact Hnd | now apply selection_ids_NoDup |].
        intros a Ha Hb'. pose proof (Hincl a Ha) as Haq.
        apply in_map_iff in Haq. destruct Haq as (r & <- & Hr).
        destruct (Hsent r Hr Ha) as [Hnp|[]].
        apply Hnp. now apply (selected_row_pending (shared sys) r).
      * intros a Ha. apply in_app_or in Ha. destruct Ha as [Ha|Ha];
          [now apply Hincl|].
        apply in_map_iff in Ha. destruct Ha as (y & <- & Hy).
        apply in_map. now apply (getPendingRecords_In cfg) in Hy.
      * intros r Hr Hin. apply in_app_or in Hin. destruct Hin as [Hin|Hin].
        -- destruct (Hsent r Hr Hin) as [Hnp|[]]. now left.
        -- now right.
    + (* the selection is marked *)
      assert (Hids : map Db.id (queue s') = map Db.id (queue (shared sys))).
      { rewrite Hq, map_map. apply map_ext. intros r.
        destruct (Db.id_in _ r); [|reflexivity].
        now destruct Hf as [-> | ->]. }
      unfold well_formed in *. unfold sent_ids in *. rewrite Hs, Hnone.
      fold (queue s'). rewrite Hseq, Hids.
      split; [exact Hwf|]. split; [exact Hex'|]. split; [|split; [|split]].
      * intros r _ [].
      * exact Hnd.
      * exact Hincl.
      * intros r' Hr' Hin. left. rewrite Hq in Hr'.
        apply in_map_iff in Hr'. destruct Hr' as (r & <- & Hr).
        destruct (Db.id_in (map Db.id (holds st)) r) eqn:Ein.
        -- destruct Hf as [-> | ->]; discriminate.
        -- destruct (Hsent r Hr Hin) as [Hnp|Hh2]; [exact Hnp|].
           apply DbFacts.id_in_spec in Hh2. congruence.
  - (* an event is queued *)
    unfold consistent, in_hand in *. cbn [fire shared tasks] in *.
    destruct (addToSyncQueue_effect e data (shared sys))
      as [[msg E]|(row & s' & E & Hq & Hst & _ & Hid & Hseq & _ & _ & _ & _ & _
                   & _ & Hs)];
      rewrite E in *; cbn [snd] in *; [exact Hall|].
    unfold sent_ids in *. rewrite Hs.
    destruct Hwf as [Hsorted Hbound].
    fold (queue (shared sys)) in Hsorted, Hbound.
    split; [|split; [exact Hex'|split; [|split; [|split]]]].
    + unfold well_formed. fold (queue s'). rewrite Hq, Hseq, map_app.
      simpl. split.
      * clear - Hsorted Hbound Hid.
        induction (map Db.id (queue (shared sys))) as [|x l IH]; simpl.
        -- repeat constructor.
        -- inversion Hsorted as [|? ? Hs Hx]; subst.
           inversion Hbound as [|? ? Hbx Hbl]; subst.
           constructor; [now apply IH|].
           apply Forall_app. split; [exact Hx|]. constructor; [lia|constructor].
      * apply Forall_app. split.
        -- eapply Forall_impl; [|exact Hbound]. simpl. intros; lia.
        -- constructor; [lia | constructor].
    + intros r Hr Hin. rewrite Hq in Hr. apply in_app_or in Hr.
      destruct Hr as [Hr|[<-|[]]]; [now apply Hhand | exact Hst].
    + exact Hnd.
    + intros a Ha. rewrite Hq, map_app. apply in_or_app. left.
      now apply Hincl.
    + intros r Hr Hin. rewrite Hq in Hr. apply in_app_or in Hr.
      destruct Hr as [Hr|[<-|[]]]; [now apply Hsent|].
      exfalso. apply Hincl in Hin. rewrite Forall_forall in Hbound.
      specialize (Hbound _ Hin). lia.
  - (* a timer fires *)
    cbn [fire] in *. destruct (timers (shared sys)); [exact Hall|].
    unfold consistent, in_hand in *. cbn [shared tasks] in *.
    split; [exact Hwf|]. split; [exact Hex'|]. split; [exact Hhand|].
    split; [exact Hnd|]. split; [exact Hincl | exact Hsent].
Qed.

Lemma run_consistent (evs : list event) (sys : system) :
  consistent sys -> consistent (run cfg evs sys).
Proof.
  revert sys. induction evs as [|ev evs IH]; intros sys H; simpl;
    [exact H | now apply IH, fire_consistent].
Qed.

Lemma boot_consistent (d : Db.database) :
  well_formed d -> consistent (boot d).
Proof.
  intros Hwf. unfold consistent, in_hand, sent_ids. simpl.
  split; [exact Hwf|]. split; [reflexivity|].
  split; [intros r _ []|]. split; [constructor|].
  split; [intros a []|]. intros r _ [].
Qed.

End InvariantFacts.

Section SettledFacts.

Variable cfg : config.

Lemma fire_settled (ev : event) (sys : system) (k : nat) (r : Db.queue_row) :
  consistent sys ->
  nth_error (queue (shared sys)) k = Some r ->
  Db.sync_status r <> Db.pending ->
  nth_error (queue (shared (fire cfg ev sys))) k = Some r.
Proof.
  intros (Hwf & Hex & Hhand & _) Hk Hnp.
  destruct ev as [e|i e|e data|]; cbn [fire].
  - unfold call. now destruct (syncInProgress (shared sys)).
  - destruct (nth_error (tasks sys) i) as [st|] eqn:Hnth; [|exact Hk].
    destruct (dispatching st) eqn:Hst.
    2:{ now rewrite (resume_returned cfg e st _ Hst). }
    assert (Hone : (List.length (filter dispatching (tasks sys)) <= 1)%nat).
    { unfold exclusive, in_flight in Hex. rewrite Hex.
      destruct (syncInProgress (shared sys)); lia. }
    destruct (hand_replace (tasks sys) i st Hone Hnth Hst) as [Hh _].
    unfold in_hand in Hhand. rewrite Hh in Hhand.
    pose proof (resume_cases cfg e st (shared sys)) as Hcases.
    destruct (resume cfg e st (shared sys)) as [st' s'].
    cbn [fst snd shared] in *.
    destruct Hcases as [_ [(Hq & _)|[(_ & _ & Hq & _)|(_ & _ & f & _ & Hq)]]];
      rewrite Hq; try exact Hk.
    rewrite nth_error_map, Hk. simpl.
    destruct (Db.id_in (map Db.id (holds st)) r) eqn:Ein; [|reflexivity].
    exfalso. apply Hnp, Hhand.
    + now apply nth_error_In in Hk.
    + now apply DbFacts.id_in_spec.
  - destruct (addToSyncQueue_effect e data (shared sys))
      as [[msg E]|(row & s' & E & Hq & _)]; rewrite E; cbn [snd shared];
      [exact Hk|].
    rewrite Hq, nth_error_app1; [exact Hk|].
    apply nth_error_Some. congruence.
  - now destruct (timers (shared sys)).
Qed.

Lemma fire_shaped (ev : event) (sys : system) :
  consistent sys ->
  Forall shaped (queue (shared sys)) ->
  Forall shaped (queue (shared (fire cfg ev sys))).
Proof.
  intros (Hwf & Hex & Hhand & _) Hsh.
  destruct ev as [e|i e|e data|]; cbn [fire].
  - unfold call. now destruct (syncInProgress (shared sys)).
  - destruct (nth_error (tasks sys) i) as [st|] eqn:Hnth; [|exact Hsh].
    destruct (dispatching st) eqn:Hst.
    2:{ now rewrite (resume_returned cfg e st _ Hst). }
    assert (Hone : (List.length (filter dispatching (tasks sys)) <= 1)%nat).
    { unfold exclusive, in_flight in Hex. rewrite Hex.
      destruct (syncInProgress (shared sys)); lia. }
    destruct (hand_replace (tasks sys) i st Hone Hnth Hst) as [Hh _].
    unfold in_hand in Hhand. rewrite Hh in Hhand.
    pose proof (resume_cases cfg e st (shared sys)) as Hcases.
    destruct (resume cfg e st (shared sys)) as [st' s'].
    cbn [fst snd shared] in *.
    destruct Hcases as [_ [(Hq & _)|[(_ & _ & Hq & _)|(_ & _ & f & Hf & Hq)]]];
      rewrite Hq; try exact Hsh.
    apply Forall_map. rewrite Forall_forall in *. intros r Hr.
    destruct (Db.id_in (map Db.id (holds st)) r) eqn:Ein; [|now apply Hsh].
    apply DbFacts.id_in_spec in Ein. pose proof (Hhand r Hr Ein) as Hp.
    destruct (Hsh r Hr) as [[_ H0]|[[Hs _]|[Hs _]]]; try congruence.
    destruct Hf as [-> | ->]; unfold shaped; simpl.
    + right. left. now split.
    + right. right. split; [reflexivity | lia].
  - destruct (addToSyncQueue_effect e data (shared sys))
      as [[msg E]|(row & s' & E & Hq & Hst & Hrc & _)];
      rewrite E; cbn [snd shared]; [exact Hsh|].
    rewrite Hq. apply Forall_app. split; [exact Hsh|].
    constructor; [|constructor]. left. now split.
  - now destruct (timers (shared sys)).
Qed.

End SettledFacts.

(** X13. Keys are never used twice.  Started on a database whose keys
    grow with the rowid and stay below the counter of the table, a run
    keeps them so; the ids of the queue are pairwise different and the id
    an enqueue returns is larger than all of them. *)
Theorem ids_never_reused
    (cfg : config) (d : Db.database) (evs : list event) :
  well_formed d ->
  let s := shared (run cfg evs (boot d)) in
  well_formed (syncDb s) /\
  NoDup (map Db.id (queue s)) /\
  (forall (e : env) (data : JS.value) (lastID : Z),
     fst (addToSyncQueue e data s) = inr lastID ->
     Forall (fun i => i < lastID) (map Db.id (queue s))).
Proof.
  intros Hwf s.
  pose proof (run_consistent cfg evs _ (boot_consistent d Hwf)) as (Hs & _).
  fold s in Hs. split; [exact Hs|]. split; [now apply well_formed_NoDup|].
  intros e data lastID H.
  destruct (addToSyncQueue_effect e data s)
    as [[msg E]|(row & s' & E & _ & _ & _ & Hid & _)];
    rewrite E in H; [discriminate|].
  injection H as <-. destruct Hs as [_ Hbound].
  eapply Forall_impl; [|exact Hbound]. simpl. intros; lia.
Qed.

Lemma ids_never_reused_witness :
  let evs := [Enqueue (at_time 1) launch; Call (at_time 2);
              Enqueue (at_time 2) launch; Resume 0 (at_time 3)] in
  well_formed Db.empty /\
  map Db.id (queue (shared (run CLOUD_CONFIG evs (boot Db.empty)))) = [1; 2] /\
  NoDup (map Db.id (queue (shared (run CLOUD_CONFIG evs (boot Db.empty))))).
Proof.
  intros evs.
  assert (Hwf : well_formed Db.empty) by (split; constructor).
  split; [exact Hwf|]. split; [reflexivity|].
  apply (ids_never_reused CLOUD_CONFIG Db.empty evs Hwf).
Defined.

(** X14. No record is handed to the transport twice.  In every run,
    however calls, resumptions, enqueues and timers interleave, the ids
    of all the envelopes given to [sendToCloud] are pairwise different:
    a record that was in a batch is never in a later one, whether the
    batch was accepted or not. *)
Theorem no_record_sent_twice
    (cfg : config) (d : Db.database) (evs : list event) :
  well_formed d ->
  NoDup (sent_ids (shared (run cfg evs (boot d)))).
Proof.
  intros Hwf.
  now pose proof (run_consistent cfg evs _ (boot_consistent d Hwf))
    as (_ & _ & _ & Hnd & _).
Qed.

Lemma no_record_sent_twice_witness :
  let evs := [Enqueue (at_time 1) launch; Enqueue (at_time 2) launch]
             ++ uninterrupted 0 (throughout (failing (at_time 3)))
             ++ [Timeout; Enqueue (at_time 40) launch]
             ++ uninterrupted 1 (throughout (at_time 41)) in
  well_formed Db.empty /\
  sent_ids (shared (run CLOUD_CONFIG evs (boot Db.empty))) = [1; 2; 3] /\
  NoDup (sent_ids (shared (run CLOUD_CONFIG evs (boot Db.empty)))).
Proof.
  intros evs.
  assert (Hwf : well_formed Db.empty) by (split; constructor).
  split; [exact Hwf|]. split; [reflexivity|].
  apply (no_record_sent_twice CLOUD_CONFIG Db.empty evs Hwf).
Defined.

(** X15. A row that has left [pending] never changes again: once it is
    [synced] or [failed], every later state of the run has the very same
    row at the same place. *)
Theorem settled_rows_are_final
    (cfg : config) (d : Db.database) (evs later : list event)
    (k : nat) (r : Db.queue_row) :
  well_formed d ->
  nth_error (queue (shared (run cfg evs (boot d)))) k = Some r ->
  Db.sync_status r <> Db.pending ->
  nth_error (queue (shared (run cfg (evs ++ later) (boot d)))) k = Some r.
Proof.
  intros Hwf Hk Hnp. unfold run. rewrite fold_left_app.
  fold (run cfg evs (boot d)).
  pose proof (run_consistent cfg evs _ (boot_consistent d Hwf)) as Hc.
  revert Hc Hk. generalize (run cfg evs (boot d)) as sys.
  induction later as [|ev later IH]; intros sys Hc Hk; simpl; [exact Hk|].
  apply IH; [now apply fire_consistent | now apply fire_settled].
Qed.

Lemma settled_rows_are_final_witness :
  let evs := [Enqueue (at_time 1) launch]
             ++ uninterrupted 0 (throughout (failing (at_time 3))) in
  let later := [Timeout; Enqueue (at_time 40) launch]
               ++ uninterrupted 1 (throughout (at_time 41)) in
  exists r,
    nth_error (queue (shared (run CLOUD_CONFIG evs (boot Db.empty)))) 0 =
      Some r /\
    Db.sync_status r = Db.failed /\
    nth_error
      (queue (shared (run CLOUD_CONFIG (evs ++ later) (boot Db.empty)))) 0 =
      Some r.
Proof.
  intros evs later.
  assert (Hwf : well_formed Db.empty) by (split; constructor).
  eexists. split; [reflexivity|]. split; [reflexivity|].
  apply (settled_rows_are_final CLOUD_CONFIG Db.empty evs later 0 _ Hwf).
  - reflexivity.
  - discriminate.
Defined.

(** X16. A row is pending with no attempt, synced with no attempt, or
    failed with one attempt, and nothing else: in a run that starts from
    rows of these shapes (an empty queue, for one) the count of attempts
    of a row never exceeds 1, so the test against [retryAttempts] in the
    selection never excludes a row. *)
Theorem attempts_never_exceed_one
    (cfg : config) (d : Db.database) (evs : list event) :
  well_formed d ->
  Forall shaped (Db.sync_queue d) ->
  let s := shared (run cfg evs (boot d)) in
  Forall shaped (queue s) /\
  Forall (fun r => 0 <= Db.retry_count r <= 1) (queue s) /\
  (1 < retryAttempts cfg ->
   eligible cfg s =
   filter (fun r => Db.status_eqb (Db.sync_status r) Db.pending) (queue s)).
Proof.
  intros Hwf Hsh s.
  assert (H : Forall shaped (queue s)).
  { subst s.
    pose proof (boot_consistent d Hwf) as Hc.
    assert (Hsh0 : Forall shaped (queue (shared (boot d)))) by exact Hsh.
    revert Hc Hsh0. generalize (boot d) as sys.
    induction evs as [|ev evs' IH]; intros sys Hc Hsh0; simpl; [exact Hsh0|].
    apply IH; [now apply fire_consistent | now apply fire_shaped]. }
  split; [exact H|]. split.
  - eapply Forall_impl; [|exact H]. intros r [[_ E]|[[_ E]|[_ E]]]; lia.
  - intros Hmax. unfold eligible. apply filter_ext_in. intros r Hr.
    rewrite Forall_forall in H. unfold Db.selectable.
    destruct (H r Hr) as [[Es E]|[[Es E]|[Es E]]]; rewrite Es, E; simpl;
      try reflexivity.
    apply Z.ltb_lt. lia.
Qed.

Lemma attempts_never_exceed_one_witness :
  let evs := [Enqueue (at_time 1) launch; Enqueue (at_time 2) launch]
             ++ uninterrupted 0 (throughout (failing (at_time 3)))
             ++ [Timeout; Enqueue (at_time 40) launch]
             ++ uninterrupted 1 (throughout (at_time 41)) in
  well_formed Db.empty /\
  map (fun r => (Db.id r, Db.sync_status r, Db.retry_count r))
      (queue (shared (run CLOUD_CONFIG evs (boot Db.empty)))) =
    [(1, Db.failed, 1); (2, Db.failed, 1); (3, Db.synced, 0)] /\
  Forall shaped (queue (shared (run CLOUD_CONFIG evs (boot Db.empty)))).
Proof.
  intros evs.
  assert (Hwf : well_formed Db.empty) by (split; constructor).
  split; [exact Hwf|]. split; [reflexivity|].
  apply (attempts_never_exceed_one CLOUD_CONFIG Db.empty evs Hwf).
  constructor.
Defined.

(** ** The breaker in a run *)

Lemma resume_breaker (cfg : config) (e : env) (st : stage) (s : state) :
  let s' := snd (resume cfg e st s) in
  (isOnline s' = isOnline s /\ timers s' = timers s) \/
  (isOnline s' = false /\ timers s' = timers s ++ [now e + 30000]).
Proof.
  destruct st as [b t|b t sel env|b t sel res|b t sel res|b n ok msg dur res
                 |res];
    cbn [resume]; try (left; split; reflexivity).
  - destruct (List.length _ =? 0)%nat; left; split; reflexivity.
  - unfold sendToCloud_settle. destruct (post cfg e env) as [r|f].
    + destruct (JS.truthy (field "success" r)); left; split; reflexivity.
    + right. split; reflexivity.
Qed.

(** X17. The manager is never offline without a way back: in every run,
    whenever [isOnline] is false a callback of [setTimeout] that will set
    it to true is still to run. *)
Theorem offline_has_timer_pending
    (cfg : config) (d : Db.database) (evs : list event) :
  let s := shared (run cfg evs (boot d)) in
  isOnline s = false -> timers s <> [].
Proof.
  intros s. subst s.
  assert (H0 : isOnline (shared (boot d)) = false ->
               timers (shared (boot d)) <> []) by discriminate.
  revert H0. generalize (boot d) as sys.
  induction evs as [|ev evs' IH]; intros sys H0; simpl; [exact H0|].
  apply IH. clear IH. destruct ev as [e|i e|e data|]; cbn [fire].
  - unfold call. now destruct (syncInProgress (shared sys)).
  - destruct (nth_error (tasks sys) i) as [st|]; [|exact H0].
    pose proof (resume_breaker cfg e st (shared sys)) as H.
    destruct (resume cfg e st (shared sys)) as [st' s']. cbn [snd shared] in *.
    destruct H as [[Hon Ht]|[_ Ht]]; rewrite Ht.
    + now rewrite Hon.
    + intros _ E. now apply app_eq_nil in E.
  - destruct (addToSyncQueue_effect e data (shared sys))
      as [[msg E]|(row & s' & E & _ & _ & _ & _ & _ & _ & _ & Hon & _ & _ & Ht
                   & _)]; rewrite E; cbn [snd shared]; [exact H0|].
    now rewrite Hon, Ht.
  - destruct (timers (shared sys)) eqn:Et; [|discriminate].
    rewrite Et. exact H0.
Qed.

Lemma offline_has_timer_pending_witness :
  let evs := [Enqueue (at_time 1) launch]
             ++ uninterrupted 0 (throughout (failing (at_time 3))) in
  isOnline (shared (run CLOUD_CONFIG evs (boot Db.empty))) = false /\
  timers (shared (run CLOUD_CONFIG evs (boot Db.empty))) = [33000] /\
  timers (shared (run CLOUD_CONFIG evs (boot Db.empty))) <> [].
Proof.
  intros evs. split; [reflexivity|]. split; [reflexivity|].
  apply (offline_has_timer_pending CLOUD_CONFIG Db.empty evs). reflexivity.
Defined.

(** ** An enqueue with its dispatch *)

(** Run without interruption on a manager that is online and idle with
    nothing waiting, [syncData] delivers the event before it returns. *)
Lemma syncData_delivers_atomically
    (cfg : config) (e : env) (sch : schedule) (data : JS.value)
    (s : state) (lastID : Z) :
  well_formed (syncDb s) ->
  isOnline s = true ->
  syncInProgress s = false ->
  eligible cfg s = [] ->
  batchSize cfg <> 0 ->
  0 < retryAttempts cfg ->
  fst (addToSyncQueue e data s) = inr lastID ->
  (forall b, accepted cfg (at_replied sch) b = true) ->
  let s' := snd (syncData cfg e sch data s) in
  exists row b,
    queue s' = queue s ++ [row] /\
    Db.id row = lastID /\ Db.sync_status row = Db.synced /\
    sent s' = sent s ++ [b] /\ map rec_id (records b) = [lastID].
Proof.
  intros [Hsorted Hbound] Hon Hflag Hnone Hb Hmax Hadd Hok s'. subst s'.
  unfold syncData.
  destruct (addToSyncQueue_effect e data s)
    as [[msg E]|(row & s1 & E & Hq & Hst & Hrc & Hid & _ & _ & _ & Hon1 & Hfl1
                 & _ & _ & Hs1)];
    rewrite E in *; [discriminate|].
  cbn [fst snd] in *. injection Hadd as <-.
  rewrite Hon1, Hfl1, Hon, Hflag. cbn [andb negb].
  assert (Hsel : getPendingRecords cfg (batchSize cfg) s1 = [row]).
  { unfold getPendingRecords, Db.select_pending.
    fold (queue s1). rewrite Hq, filter_app.
    fold (eligible cfg s). rewrite Hnone. simpl.
    unfold Db.selectable. rewrite Hst, Hrc. simpl.
    assert (H0 : (0 <? retryAttempts cfg) = true) by now apply Z.ltb_lt.
    rewrite H0. simpl. unfold Db.limit.
    destruct (batchSize cfg <? 0) eqn:Hneg; [reflexivity|].
    apply Z.ltb_ge in Hneg.
    destruct (Z.to_nat (batchSize cfg)) eqn:Hn;
      [lia | simpl; now rewrite firstn_nil]. }
  assert (Hidle : syncInProgress s1 = false) by congruence.
  assert (Hne : getPendingRecords cfg (batchSize cfg) s1 <> [])
    by (rewrite Hsel; discriminate).
  rewrite (performSync_dispatch cfg sch s1 Hidle Hne). cbv zeta.
  specialize (Hok (envelope cfg sch s1)). unfold accepted in Hok.
  destruct (post cfg (at_replied sch) (envelope cfg sch s1)) as [res|f];
    [|discriminate].
  rewrite Hok, Hsel. unfold queue in *. cbn [snd syncDb sent].
  cbn [Db.insert_sync_log Db.sync_queue Db.update_synced Db.with_queue].
  rewrite Hq, map_app, Hs1.
  exists (Db.set_status Db.synced row), (envelope cfg sch s1).
  split; [|split; [reflexivity|split; [reflexivity|split; [reflexivity|]]]].
  - f_equal.
    + rewrite <- (map_id (Db.sync_queue (syncDb s))) at 2.
      apply map_ext_in. intros r Hr. unfold Db.id_in. simpl.
      rewrite Forall_forall in Hbound.
      specialize (Hbound (Db.id r) (in_map Db.id _ r Hr)).
      destruct (Db.id r =? Db.id row) eqn:Eid; [|reflexivity].
      apply Z.eqb_eq in Eid. lia.
    + simpl. unfold Db.id_in. simpl. now rewrite Z.eqb_refl.
  - rewrite envelope_ids, Hsel. reflexivity.
Qed.

(** *** The uninterrupted methods as sequences of steps *)

Section StepwiseFacts.

Variable cfg : config.

Lemma replace_last {A : Type} (l : list A) (x y : A) :
  replace (List.length l) y (l ++ [x]) = l ++ [y].
Proof. induction l as [|z l IH]; simpl; [reflexivity | now rewrite IH]. Qed.

Lemma nth_error_last {A : Type} (l : list A) (x : A) :
  nth_error (l ++ [x]) (List.length l) = Some x.
Proof. induction l as [|z l IH]; simpl; [reflexivity | exact IH]. Qed.

Lemma nth_error_end {A : Type} (l : list A) :
  nth_error l (List.length l) = None.
Proof. induction l as [|z l IH]; simpl; [reflexivity | exact IH]. Qed.

Lemma fire_call_at (l : list stage) (e : env) (s : state) :
  fire cfg (Call e) {| shared := s; tasks := l |} =
  {| shared := snd (call e s); tasks := l ++ [fst (call e s)] |}.
Proof. simpl. now destruct (call e s). Qed.

Lemma fire_resume_last (l : list stage) (e : env) (st : stage) (s : state) :
  fire cfg (Resume (List.length l) e) {| shared := s; tasks := l ++ [st] |} =
  {| shared := snd (resume cfg e st s);
     tasks := l ++ [fst (resume cfg e st s)] |}.
Proof.
  cbn [fire tasks shared]. rewrite nth_error_last.
  destruct (resume cfg e st s) as [st' s']. cbn [fst snd].
  now rewrite replace_last.
Qed.

(** An invocation that nothing interrupts, among earlier ones. *)
Lemma performSync_stepwise_at (l : list stage) (sch : schedule) (s : state) :
  run cfg (uninterrupted (List.length l) sch) {| shared := s; tasks := l |} =
  {| shared := snd (performSync cfg sch s);
     tasks := l ++ [Returned (fst (performSync cfg sch s))] |}.
Proof.
  unfold uninterrupted, run. cbn [fold_left]. rewrite fire_call_at.
  unfold performSync, call.
  destruct (syncInProgress s) eqn:Hflag; cbn [fst snd].
  { now rewrite !fire_resume_last. }
  rewrite fire_resume_last. cbn [resume].
  rewrite getPendingRecords_flag.
  destruct (List.length (getPendingRecords cfg (batchSize cfg) s) =? 0)%nat;
    cbn [fst snd].
  { now rewrite !fire_resume_last. }
  rewrite fire_resume_last. cbn [resume]. unfold sendToCloud.
  destruct (sendToCloud_settle cfg (at_replied sch) _ _) as [res s1].
  destruct (JS.truthy (field "success" res)); cbn [fst snd];
    now rewrite !fire_resume_last.
Qed.

Lemma execute_resumptions (i : nat) (sch : schedule) (e : env) (sys : system) :
  execute cfg (resumptions i sch) (fire cfg (Call e) sys) =
  run cfg (Call e :: tl (uninterrupted i sch)) sys.
Proof. reflexivity. Qed.

Lemma resumptions_of_none (sch : schedule) (sys : system) :
  execute cfg (resumptions (List.length (tasks sys)) sch) sys = sys.
Proof.
  unfold execute, resumptions. cbn [fold_left perform fire].
  now rewrite !nth_error_end.
Qed.

(** [syncData], run without interruption, is its enqueue, then its
    guard with the call, then the resumptions of the invocation the
    call has started, if any. *)
Lemma syncData_stepwise (e : env) (sch : schedule) (data : JS.value)
    (sys : system) :
  let s := shared sys in
  let rest :=
    match fst (addToSyncQueue e data s) with
    | inr _ =>
        Kick (at_call sch) :: resumptions (List.length (tasks sys)) sch
    | inl _ => []
    end in
  shared (execute cfg (Queued e data :: rest) sys) =
  snd (syncData cfg e sch data s).
Proof.
  intros s rest. subst rest s. destruct sys as [s l].
  unfold syncData. cbn [execute fold_left perform fire shared tasks].
  destruct (addToSyncQueue e data s) as [[msg|lastID] s1]; cbn [fst snd].
  { reflexivity. }
  cbn [fold_left perform shared].
  destruct (isOnline s1 && negb (syncInProgress s1)).
  - fold (execute cfg (resumptions (List.length l) sch)
            (fire cfg (Call (at_call sch)) {| shared := s1; tasks := l |})).
    rewrite execute_resumptions.
    change (Call (at_call sch) :: tl (uninterrupted (List.length l) sch))
      with (uninterrupted (List.length l) sch).
    now rewrite performSync_stepwise_at.
  - fold (execute cfg (resumptions (List.length l) sch)
            {| shared := s1; tasks := l |}).
    change l with (tasks {| shared := s1; tasks := l |}) at 1.
    now rewrite resumptions_of_none.
Qed.

(** [logEvent], run without interruption, is its two INSERTs. *)
Lemma logEvent_stepwise (e e' : env) (data : JS.value) (sys : system) :
  shared (execute cfg [Activity e data; Queued e' data] sys) =
  snd (logEvent e e' data (shared sys)).
Proof.
  cbn [execute fold_left perform fire shared tasks].
  unfold logEvent, logActivity, addToSyncQueue.
  destruct data as [| |b|n|n|s|elems|props]; cbn [JS.get];
    try reflexivity;
    match goal with
    | |- context [JS.JSON_stringify ?v] =>
        destruct (JS.JSON_stringify v); reflexivity
    end.
Qed.

(** [performScheduledSync] is a tick and the resumptions of the
    invocation it has started, if any. *)
Lemma performScheduledSync_stepwise (sch : schedule) (sys : system) :
  shared
    (execute cfg
       (Tick (at_call sch) :: resumptions (List.length (tasks sys)) sch) sys)
  = performScheduledSync cfg sch (shared sys).
Proof.
  destruct sys as [s l]. unfold performScheduledSync.
  cbn [execute fold_left perform shared tasks].
  destruct (negb (isOnline s)).
  - fold (execute cfg (resumptions (List.length l) sch)
            {| shared := s; tasks := l |}).
    change l with (tasks {| shared := s; tasks := l |}) at 1.
    now rewrite resumptions_of_none.
  - destruct (now (at_call sch) - lastSyncTime s >=? syncInterval cfg).
    + fold (execute cfg (resumptions (List.length l) sch)
              (fire cfg (Call (at_call sch)) {| shared := s; tasks := l |})).
      rewrite execute_resumptions.
      change (Call (at_call sch) :: tl (uninterrupted (List.length l) sch))
        with (uninterrupted (List.length l) sch).
      now rewrite performSync_stepwise_at.
    + fold (execute cfg (resumptions (List.length l) sch)
              {| shared := s; tasks := l |}).
      change l with (tasks {| shared := s; tasks := l |}) at 1.
      now rewrite resumptions_of_none.
Qed.

End StepwiseFacts.

(** X18. When no other step comes between the steps of a [syncData]
    and of the dispatch it starts, on a manager that is online and idle
    with no eligible record waiting, the event is delivered before
    [syncData] returns if the transport accepts the batch: the envelope
    holds this record alone and its row is [synced].  (A tick or another
    enqueue between the INSERT and the guard can change this: the guard
    is read after the [await].) *)
Theorem syncData_delivers_at_once
    (cfg : config) (e : env) (sch : schedule) (data : JS.value)
    (sys : system) (lastID : Z) :
  well_formed (syncDb (shared sys)) ->
  isOnline (shared sys) = true ->
  syncInProgress (shared sys) = false ->
  eligible cfg (shared sys) = [] ->
  batchSize cfg <> 0 ->
  0 < retryAttempts cfg ->
  fst (addToSyncQueue e data (shared sys)) = inr lastID ->
  (forall b, accepted cfg (at_replied sch) b = true) ->
  let sys' :=
    execute cfg
      ([Queued e data; Kick (at_call sch)]
       ++ resumptions (List.length (tasks sys)) sch) sys in
  exists row b,
    queue (shared sys') = queue (shared sys) ++ [row] /\
    Db.id row = lastID /\ Db.sync_status row = Db.synced /\
    sent (shared sys') = sent (shared sys) ++ [b] /\
    map rec_id (records b) = [lastID].
Proof.
  intros Hwf Hon Hflag Hnone Hb Hmax Hadd Hok sys'.
  pose proof (syncData_stepwise cfg e sch data sys) as Hstep.
  cbv zeta in Hstep. rewrite Hadd in Hstep.
  change (Queued e data
          :: Kick (at_call sch) :: resumptions (List.length (tasks sys)) sch)
    with ([Queued e data; Kick (at_call sch)]
          ++ resumptions (List.length (tasks sys)) sch) in Hstep.
  fold sys' in Hstep. rewrite Hstep.
  now apply (syncData_delivers_atomically cfg e sch data (shared sys) lastID).
Qed.

Lemma syncData_delivers_at_once_witness :
  let sys' :=
    execute CLOUD_CONFIG
      ([Queued (at_time 1) launch; Kick (at_time 2)]
       ++ resumptions 0 (throughout (at_time 2))) (boot Db.empty) in
  well_formed Db.empty /\
  map (fun r => (Db.id r, Db.sync_status r)) (queue (shared sys')) =
    [(1, Db.synced)] /\
  exists row b,
    queue (shared sys') = [row] /\ Db.sync_status row = Db.synced /\
    sent (shared sys') = [b] /\ map rec_id (records b) = [1].
Proof.
  intros sys'.
  assert (Hwf : well_formed Db.empty) by (split; constructor).
  split; [exact Hwf|]. split; [reflexivity|].
  destruct (syncData_delivers_at_once CLOUD_CONFIG (at_time 1)
              (throughout (at_time 2)) launch (boot Db.empty) 1 Hwf)
    as (row & b & Hq & _ & Hst & Hs & Hb); try reflexivity.
  - discriminate.
  - exists row, b. split; [exact Hq|]. split; [exact Hst|].
    split; [exact Hs | exact Hb].
Defined.
